(** * ChatApp: chat and message controllers, and the SingleChat client

    A shallow embedding of
      - backend/controllers/chatControllers.js  (accessChat, fetchChats,
        createGroupChat, renameGroup, removeFromGroup, addToGroup),
      - the message controller                  (allMessages, sendMessage),
      - frontend/src/components/SingleChat.js   (sendMessage, messageHandler,
        typingHandler and the unmount cleanup),
    over an explicit document store, with the properties of the
    specification stated and proved against it.

    Conventions.  An [ObjectId] is a natural number.  A request field that
    JavaScript tests for truthiness is an [option] ([None]: absent or
    falsy) unless it is text, where the empty string is the falsy value.
    User documents are represented by their ids, so populating a user
    reference is the identity.  Database calls are total: connection
    failures and cast errors are outside the model. *)

From Stdlib Require Import List String Bool Arith PeanoNat NArith Lia.
From Stdlib Require Import Permutation Sorted DecimalString.
Import ListNotations.
Local Open Scope string_scope.
Local Open Scope list_scope.
Local Open Scope nat_scope.

(** ** Documents *)

Definition ObjectId := nat.

(** Modelled from the spec: the Chat schema (models/chatModel.js is not
    among the sources).  The fields are the ones the controllers read and
    write; [updatedAt] is the Mongoose timestamp the chat list is sorted
    on, stamped when the document is created and on every update. *)
Record Chat := mkChat {
  _id : ObjectId;
  chatName : option string;
  isGroupChat : bool;
  users : list ObjectId;
  latestMessage : option ObjectId;
  groupAdmin : option ObjectId;
  updatedAt : nat
}.

(** Modelled from the spec: the Message schema (models/messageModel.js is
    not among the sources): sender, parent chat, text content and the
    creation timestamp. *)
Record Message := mkMessage {
  message_id : ObjectId;
  sender : ObjectId;
  content : string;
  chat : ObjectId;
  createdAt : nat
}.

(** The database: two collections in insertion (natural) order. *)
Record Store := mkStore {
  chats : list Chat;
  messages : list Message
}.

Definition empty_store : Store := mkStore [] [].

(** A chat with its [latestMessage] path populated. *)
Record PopulatedChat := mkPopulatedChat {
  pc_doc : Chat;
  pc_latestMessage : option Message
}.

(** A message with its [chat] path populated. *)
Record PopulatedMessage := mkPopulatedMessage {
  pm_doc : Message;
  pm_chat : option Chat
}.

(** ** Responses *)

Inductive Body :=
| Text (s : string)                 (* res.send("...") and res.sendStatus *)
| JsonMessage (message : string)    (* res.json({ message }) *)
| ChatDoc (c : option PopulatedChat)
| ChatDocs (cs : list PopulatedChat)
| MessageDoc (m : option PopulatedMessage)
| MessageDocs (ms : list PopulatedMessage)
| Thrown (message : string).        (* an Error left to the error middleware *)

Record Response := mkResponse {
  status : nat;
  body : Body
}.

(** Express: the registered status message, or the code in decimal. *)
Definition status_text (code : nat) : string :=
  match code with
  | 200 => "OK"
  | 201 => "Created"
  | 400 => "Bad Request"
  | 401 => "Unauthorized"
  | 404 => "Not Found"
  | 500 => "Internal Server Error"
  | _ => NilEmpty.string_of_uint (Nat.to_uint code)
  end.

(** [res.sendStatus(code)]: sets the status and sends the status message
    as the text body. *)
Definition sendStatus (code : nat) : Response :=
  mkResponse code (Text (status_text code)).

(** [res.send(x)] / [res.json(x)] without a prior [res.status]. *)
Definition send (b : Body) : Response := mkResponse 200 b.

(** ** The Mongoose layer *)

Module Mongoose.

Definition mem (x : ObjectId) (l : list ObjectId) : bool :=
  existsb (Nat.eqb x) l.

(** A new ObjectId, different from every id of the collection. *)
Definition fresh_id (ids : list ObjectId) : ObjectId := S (list_max ids).

(** [Model.findOne(query)]: the first matching document. *)
Definition findOne {A : Type} (query : A -> bool) (coll : list A) : option A :=
  find query coll.

Definition findChatById (id : ObjectId) (coll : list Chat) : option Chat :=
  findOne (fun c => _id c =? id) coll.

Definition findMessageById (id : ObjectId) (coll : list Message)
  : option Message :=
  findOne (fun m => message_id m =? id) coll.

(** [Chat.create(fields)] at time [now]. *)
Definition createChat (now : nat) (name : option string) (group : bool)
    (members : list ObjectId) (admin : option ObjectId) (db : Store)
  : Store * Chat :=
  let c := mkChat (fresh_id (map _id (chats db))) name group members
                  None admin now in
  (mkStore (chats db ++ [c]) (messages db), c).

(** [Message.create(fields)] at time [now]. *)
Definition createMessage (now : nat) (from : ObjectId) (text : string)
    (chatId : ObjectId) (db : Store) : Store * Message :=
  let m := mkMessage (fresh_id (map message_id (messages db))) from text
                     chatId now in
  (mkStore (chats db) (messages db ++ [m]), m).

(** [Chat.findByIdAndUpdate(id, update)] on the collection: the first
    document with that id is replaced; the second component is the
    updated document ([{ new: true }]) or [None] when no document has
    the id. *)
Fixpoint updateFirst (id : ObjectId) (upd : Chat -> Chat) (coll : list Chat)
  : list Chat * option Chat :=
  match coll with
  | [] => ([], None)
  | c :: rest =>
      if _id c =? id then (upd c :: rest, Some (upd c))
      else let (rest', r) := updateFirst id upd rest in (c :: rest', r)
  end.

Definition findByIdAndUpdate (now : nat) (id : ObjectId) (upd : Chat -> Chat)
    (db : Store) : Store * option Chat :=
  let stamp c := mkChat (_id c) (chatName c) (isGroupChat c) (users c)
                        (latestMessage c) (groupAdmin c) now in
  let (cs, r) := updateFirst id (fun c => stamp (upd c)) (chats db) in
  (mkStore cs (messages db), r).

(** [.populate("latestMessage")] on a chat. *)
Definition populateChat (db : Store) (c : Chat) : PopulatedChat :=
  mkPopulatedChat c
    match latestMessage c with
    | Some mid => findMessageById mid (messages db)
    | None => None
    end.

(** [.populate("chat")] on a message. *)
Definition populateMessage (db : Store) (m : Message) : PopulatedMessage :=
  mkPopulatedMessage m (findChatById (chat m) (chats db)).

(** [.sort({ updatedAt: -1 })]: insertion sort, latest update first. *)
Fixpoint insert_desc (c : Chat) (l : list Chat) : list Chat :=
  match l with
  | [] => [c]
  | d :: rest =>
      if updatedAt d <=? updatedAt c then c :: l
      else d :: insert_desc c rest
  end.

Fixpoint sort_updatedAt_desc (l : list Chat) : list Chat :=
  match l with
  | [] => []
  | c :: rest => insert_desc c (sort_updatedAt_desc rest)
  end.

End Mongoose.

(** ** backend/controllers/chatControllers.js *)

Module ChatControllers.
Import Mongoose.

(** The [users] field of a createGroupChat body, by what the handler
    does with it: falsy (absent or the empty string), a string that
    [JSON.parse] rejects, or a string that parses to an array of ids. *)
Inductive UsersField :=
| UsersMissing
| UsersUnparsable
| UsersArray (parsed : list ObjectId).

Record GroupBody := mkGroupBody {
  body_users : UsersField;
  body_name : option string
}.

(** JavaScript truthiness of an optional text field. *)
Definition truthy (s : option string) : bool :=
  match s with
  | None => false
  | Some t => negb (String.eqb t EmptyString)
  end.

(** The query of accessChat: a non-group chat whose [users] contain both
    ids. *)
Definition direct_between (a b : ObjectId) (c : Chat) : bool :=
  negb (isGroupChat c) && mem a (users c) && mem b (users c).

(** [accessChat]: [user] is [req.user._id], [userId] is
    [req.body.userId]. *)
Definition accessChat (now : nat) (user : ObjectId) (userId : option ObjectId)
    (db : Store) : Store * Response :=
  match userId with
  | None => (db, sendStatus 400)
  | Some uid =>
      match findOne (direct_between user uid) (chats db) with
      | Some isChat =>
          (db, send (ChatDoc (option_map (populateChat db)
                                (findChatById (_id isChat) (chats db)))))
      | None =>
          let (db', createdChat) :=
            createChat now (Some "sender") false [user; uid] None db in
          let fullChat := findChatById (_id createdChat) (chats db') in
          (db', mkResponse 200
                  (ChatDoc (option_map (fun c => mkPopulatedChat c None)
                              fullChat)))
      end
  end.

(** [fetchChats]: the documents the handler sends, before population. *)
Definition fetched (user : ObjectId) (db : Store) : list Chat :=
  sort_updatedAt_desc (filter (fun c => mem user (users c)) (chats db)).

Definition fetchChats (user : ObjectId) (db : Store) : Store * Response :=
  (db, mkResponse 200 (ChatDocs (map (populateChat db) (fetched user db)))).

(** [createGroupChat]: [user] is [req.user].  A [JSON.parse] that throws
    leaves the handler through asyncHandler; the error middleware is not
    among the sources, and the specification has unhandled exceptions
    answered with 500. *)
Definition createGroupChat (now : nat) (user : ObjectId) (req : GroupBody)
    (db : Store) : Store * Response :=
  match body_users req, truthy (body_name req) with
  | UsersMissing, _ | _, false =>
      (db, mkResponse 400 (JsonMessage "Please fill all the fields"))
  | UsersUnparsable, true =>
      (db, mkResponse 500 (Thrown "Unexpected token in JSON"))
  | UsersArray parsed, true =>
      if List.length parsed <? 2 then
        (db, mkResponse 400
               (Text "At least 2 users are required to form a group chat"))
      else
        let members := parsed ++ [user] in
        let (db', groupChat) :=
          createChat now (body_name req) true members (Some user) db in
        let fullGroupChat := findChatById (_id groupChat) (chats db') in
        (db', mkResponse 200
                (ChatDoc (option_map (fun c => mkPopulatedChat c None)
                            fullGroupChat)))
  end.

Definition set_chatName (name : option string) (c : Chat) : Chat :=
  mkChat (_id c) name (isGroupChat c) (users c) (latestMessage c)
         (groupAdmin c) (updatedAt c).

Definition set_users (us : list ObjectId) (c : Chat) : Chat :=
  mkChat (_id c) (chatName c) (isGroupChat c) us (latestMessage c)
         (groupAdmin c) (updatedAt c).

(** The answer of the three update handlers. *)
Definition updated_or_404 (r : option Chat) : Response :=
  match r with
  | Some c => send (ChatDoc (Some (mkPopulatedChat c None)))
  | None => mkResponse 404 (Thrown "Chat not found")
  end.

(** [renameGroup]: [name] is [req.body.chatName], which the handler hands
    to the update unchecked: a text, the empty one included, or [None]
    for a null name, which leaves the chat without one.  (A body without
    the field gives [undefined]; Mongoose either stores that as null, the
    [None] here, or leaves the name as it is, which is the rename to the
    name the chat has.) *)
Definition renameGroup (now : nat) (chatId : ObjectId) (name : option string)
    (db : Store) : Store * Response :=
  let (db', updatedChat) :=
    findByIdAndUpdate now chatId (set_chatName name) db in
  (db', updated_or_404 updatedChat).

(** [$pull]: every occurrence of [userId] leaves the array. *)
Definition pull (userId : ObjectId) (us : list ObjectId) : list ObjectId :=
  filter (fun u => negb (u =? userId)) us.

Definition removeFromGroup (now : nat) (chatId userId : ObjectId)
    (db : Store) : Store * Response :=
  let (db', removed) :=
    findByIdAndUpdate now chatId
      (fun c => set_users (pull userId (users c)) c) db in
  (db', updated_or_404 removed).

(** [$push]: [userId] goes to the end of the array. *)
Definition addToGroup (now : nat) (chatId userId : ObjectId)
    (db : Store) : Store * Response :=
  let (db', added) :=
    findByIdAndUpdate now chatId
      (fun c => set_users (users c ++ [userId]) c) db in
  (db', updated_or_404 added).

End ChatControllers.

(** ** The message controller (allMessages, sendMessage) *)

Module MessageControllers.
Import Mongoose.

Definition set_latestMessage (m : option ObjectId) (c : Chat) : Chat :=
  mkChat (_id c) (chatName c) (isGroupChat c) (users c) m
         (groupAdmin c) (updatedAt c).

(** [allMessages]: [chatId] is [req.params.chatId]. *)
Definition allMessages (chatId : ObjectId) (db : Store) : Store * Response :=
  (db, send (MessageDocs
               (map (populateMessage db)
                    (filter (fun m => chat m =? chatId) (messages db))))).

(** [sendMessage]: [user] is [req.user._id]; [content] and [chatId] are
    the two body fields. *)
Definition sendMessage (now : nat) (user : ObjectId)
    (content : option string) (chatId : option ObjectId) (db : Store)
  : Store * Response :=
  match content, chatId with
  | Some text, Some cid =>
      if String.eqb text EmptyString then
        (db, mkResponse 400 (JsonMessage "Content and chatId are required."))
      else
        let (db1, created) := createMessage now user text cid db in
        let message :=
          option_map (populateMessage db1)
                     (findMessageById (message_id created) (messages db1)) in
        let (db2, _) :=
          findByIdAndUpdate now cid
            (set_latestMessage
               (option_map (fun m => message_id (pm_doc m)) message))
            db1 in
        (db2, mkResponse 201 (MessageDoc message))
  | _, _ =>
      (db, mkResponse 400 (JsonMessage "Content and chatId are required."))
  end.

End MessageControllers.

(** ** frontend/src/components/SingleChat.js *)

Module SingleChat.

(** The text of the input box: a JavaScript string, as its UTF-16 code
    units. *)
Definition jsstring := list N.

(** ECMAScript WhiteSpace and LineTerminator code units, the ones
    [String.prototype.trim] strips. *)
Definition is_whitespace (u : N) : bool :=
  (existsb (N.eqb u)
     [9; 10; 11; 12; 13; 32; 160; 5760; 8232; 8233; 8239; 8287; 12288; 65279]
   || ((8192 <=? u) && (u <=? 8202)))%N.

Fixpoint trimStart (s : jsstring) : jsstring :=
  match s with
  | [] => []
  | u :: rest => if is_whitespace u then trimStart rest else s
  end.

Definition trim (s : jsstring) : jsstring :=
  rev (trimStart (rev (trimStart s))).

(** A message object held by the client: the document received from
    the server, and the identity of the JavaScript object holding it
    ([Array.prototype.includes] compares objects by identity). *)
Record MessageObject := mkMessageObject {
  address : nat;
  payload : Message
}.

(** A pending [setTimeout] of typingHandler: its handle, the time it is
    due, and the chat id its callback captured. *)
Record Timer := mkTimer {
  timer_id : nat;
  deadline : nat;
  timer_room : option ObjectId
}.

(** The state the component reads and writes: its own [useState] and
    [useRef] cells, the values of the ChatState context and of the
    [fetchAgain] prop, the module-level [selectedChatCompare], and the
    timers of the event loop.  A selected chat is represented by its
    [_id]; [None] is a falsy [selectedChat].  Timer handles are positive
    integers, hence truthy. *)
Record Component := mkComponent {
  messages : list MessageObject;
  newMessage : jsstring;
  socketConnected : bool;
  typing : bool;
  istyping : bool;
  typingTimeoutRef : option nat;
  selectedChat : option ObjectId;
  notification : list MessageObject;
  fetchAgain : bool;
  selectedChatCompare : option ObjectId;
  timers : list Timer;
  next_timer : nat
}.

(** What a handler does to the outside world. *)
Inductive Effect :=
| Emit (signal : string) (room : option ObjectId)
    (* socket.emit(signal, selectedChat._id) *)
| EmitMessage (data : MessageObject)
    (* socket.emit("new message", data) *)
| Post (content : jsstring) (chatId : option ObjectId)
    (* axios.post("/api/message", { content, chatId }) *)
| Toast (description : string).

(** The component after its first render and effects. *)
Definition mount (selected : option ObjectId) (fetch : bool) : Component :=
  mkComponent [] [] false false false None selected [] fetch selected [] 1.

(** [socket.on("connected", ...)]. *)
Definition on_connected (c : Component) : Component :=
  mkComponent (messages c) (newMessage c) true (typing c) (istyping c)
    (typingTimeoutRef c) (selectedChat c) (notification c) (fetchAgain c)
    (selectedChatCompare c) (timers c) (next_timer c).

(** *** sendMessage (the keydown handler) *)

Definition wants_to_send (key : string) (c : Component) : bool :=
  String.eqb key "Enter" && negb (match trim (newMessage c) with
                                  | [] => true
                                  | _ :: _ => false
                                  end).

(** Up to the [await]: the signals sent and the request issued. *)
Definition sendMessage_request (key : string) (c : Component) : list Effect :=
  if wants_to_send key c then
    [Emit "stop typing" (selectedChat c);
     Post (newMessage c) (selectedChat c)]
  else [].

(** After the [await], when the request succeeded with [data]. *)
Definition sendMessage_fulfilled (data : MessageObject) (c : Component)
  : Component * list Effect :=
  (mkComponent (messages c ++ [data]) [] (socketConnected c) (typing c)
     (istyping c) (typingTimeoutRef c) (selectedChat c) (notification c)
     (fetchAgain c) (selectedChatCompare c) (timers c) (next_timer c),
   [EmitMessage data]).

(** After the [await], when the request failed. *)
Definition sendMessage_rejected (c : Component) : Component * list Effect :=
  (c, [Toast "Failed to send the Message"]).

(** The whole handler, the server's answer to the request given by
    [respond] ([None]: the request fails). *)
Definition sendMessage (key : string)
    (respond : jsstring -> option ObjectId -> option MessageObject)
    (c : Component) : Component * list Effect :=
  if wants_to_send key c then
    let before := sendMessage_request key c in
    match respond (newMessage c) (selectedChat c) with
    | Some data =>
        let (c', after) := sendMessage_fulfilled data c in
        (c', before ++ after)
    | None =>
        let (c', after) := sendMessage_rejected c in
        (c', before ++ after)
    end
  else (c, []).

(** *** messageHandler (the "message recieved" listener) *)

(** [notification.includes(m)]: the very object [m] is in the array. *)
Definition includes (l : list MessageObject) (m : MessageObject) : bool :=
  existsb (fun x => address x =? address m) l.

(** Is [m] a message of the chat that is open? *)
Definition for_open_chat (m : MessageObject) (c : Component) : bool :=
  match selectedChatCompare c with
  | None => false
  | Some open => open =? chat (payload m)
  end.

Definition messageHandler (newMessageRecieved : MessageObject)
    (c : Component) : Component :=
  if negb (for_open_chat newMessageRecieved c) then
    if negb (includes (notification c) newMessageRecieved) then
      mkComponent (messages c) (newMessage c) (socketConnected c) (typing c)
        (istyping c) (typingTimeoutRef c) (selectedChat c)
        (newMessageRecieved :: notification c) (negb (fetchAgain c))
        (selectedChatCompare c) (timers c) (next_timer c)
    else c
  else
    mkComponent (messages c ++ [newMessageRecieved]) (newMessage c)
      (socketConnected c) (typing c) (istyping c) (typingTimeoutRef c)
      (selectedChat c) (notification c) (fetchAgain c)
      (selectedChatCompare c) (timers c) (next_timer c).

(** [messageHandler] as the render [rendered] created it.  The handler
    reads [notification] and [fetchAgain] from its closure, that is as
    they were at that render; [selectedChatCompare], a variable of the
    module, and the previous messages of the functional [setMessages]
    are those of the component the message reaches. *)
Definition messageHandler_of (rendered : Component)
    (newMessageRecieved : MessageObject) (c : Component) : Component :=
  if negb (for_open_chat newMessageRecieved c) then
    if negb (includes (notification rendered) newMessageRecieved) then
      mkComponent (messages c) (newMessage c) (socketConnected c) (typing c)
        (istyping c) (typingTimeoutRef c) (selectedChat c)
        (newMessageRecieved :: notification rendered)
        (negb (fetchAgain rendered))
        (selectedChatCompare c) (timers c) (next_timer c)
    else c
  else
    mkComponent (messages c ++ [newMessageRecieved]) (newMessage c)
      (socketConnected c) (typing c) (istyping c) (typingTimeoutRef c)
      (selectedChat c) (notification c) (fetchAgain c)
      (selectedChatCompare c) (timers c) (next_timer c).

(** *** typingHandler and the timers of the event loop *)

(** [setTimeout]: the queue of pending timers is kept in the order in
    which they fire (by deadline, then by age). *)
Fixpoint enqueue (t : Timer) (q : list Timer) : list Timer :=
  match q with
  | [] => [t]
  | u :: rest =>
      if deadline u <=? deadline t then u :: enqueue t rest else t :: q
  end.

(** [clearTimeout(id)]: a handle that is not pending is ignored. *)
Definition clearTimeout (id : nat) (q : list Timer) : list Timer :=
  filter (fun t => negb (timer_id t =? id)) q.

(** The delay of the typing timer, in milliseconds. *)
Definition typing_delay : nat := 3000.

(** [typingHandler], called at time [now] with [e.target.value]. *)
Definition typingHandler (now : nat) (value : jsstring) (c : Component)
  : Component * list Effect :=
  if negb (socketConnected c) then
    (mkComponent (messages c) value (socketConnected c) (typing c)
       (istyping c) (typingTimeoutRef c) (selectedChat c) (notification c)
       (fetchAgain c) (selectedChatCompare c) (timers c) (next_timer c),
     [])
  else
    let started :=
      if negb (typing c) then [Emit "typing" (selectedChat c)] else [] in
    let pending :=
      match typingTimeoutRef c with
      | Some id => clearTimeout id (timers c)
      | None => timers c
      end in
    let id := next_timer c in
    (mkComponent (messages c) value (socketConnected c) true
       (istyping c) (Some id) (selectedChat c) (notification c)
       (fetchAgain c) (selectedChatCompare c)
       (enqueue (mkTimer id (now + typing_delay) (selectedChat c)) pending)
       (S id),
     started).

(** The cleanup of the last effect, run when the component unmounts. *)
Definition unmount (c : Component) : Component :=
  match typingTimeoutRef c with
  | Some id =>
      mkComponent (messages c) (newMessage c) (socketConnected c) (typing c)
        (istyping c) (typingTimeoutRef c) (selectedChat c) (notification c)
        (fetchAgain c) (selectedChatCompare c)
        (clearTimeout id (timers c)) (next_timer c)
  | None => c
  end.

(** The timers that are due at time [upto], and the ones that stay. *)
Fixpoint split_due (upto : nat) (q : list Timer) : list Timer * list Timer :=
  match q with
  | [] => ([], [])
  | t :: rest =>
      if deadline t <=? upto then
        let (due, later) := split_due upto rest in (t :: due, later)
      else ([], q)
  end.

(** The callback of the typing timer: the signal it emits, stamped with
    the time it runs at. *)
Definition timeout_callback (t : Timer) : nat * Effect :=
  (deadline t, Emit "stop typing" (timer_room t)).

(** Time passes until [upto]: every due timer runs its callback, which
    emits "stop typing" and resets [typing]. *)
Definition advance (upto : nat) (c : Component)
  : Component * list (nat * Effect) :=
  let (due, later) := split_due upto (timers c) in
  (mkComponent (messages c) (newMessage c) (socketConnected c)
     (match due with [] => typing c | _ :: _ => false end)
     (istyping c) (typingTimeoutRef c) (selectedChat c) (notification c)
     (fetchAgain c) (selectedChatCompare c) later (next_timer c),
   map timeout_callback due).

(** What happens to the input box. *)
Inductive Event :=
| Change (value : jsstring)
| Unmount.

Definition handle (now : nat) (e : Event) (c : Component)
  : Component * list Effect :=
  match e with
  | Change value => typingHandler now value c
  | Unmount => (unmount c, [])
  end.

(** A timeline of events, each with the time it happens at; the timers
    due by then run first.  The result is the final component and the
    effects, each with its time. *)
Fixpoint run (timeline : list (nat * Event)) (c : Component)
  : Component * list (nat * Effect) :=
  match timeline with
  | [] => (c, [])
  | (t, e) :: rest =>
      let (c1, fired) := advance t c in
      let (c2, effects) := handle t e c1 in
      let (c3, later) := run rest c2 in
      (c3, fired ++ map (pair t) effects ++ later)
  end.

(** The timeline followed by inactivity until [upto]. *)
Definition run_then_idle (timeline : list (nat * Event)) (upto : nat)
    (c : Component) : Component * list (nat * Effect) :=
  let (c1, during) := run timeline c in
  let (c2, after) := advance upto c1 in
  (c2, during ++ after).

(** *** fetchMessages and the selection of a chat *)

(** The component together with its [loading] cell. *)
Record View := mkView {
  component : Component;
  loading : bool
}.

(** What fetchMessages does to the outside world: the GET request for a
    chat's messages, or an effect of the kinds above. *)
Inductive FetchEffect :=
| Get (chatId : ObjectId)                (* axios.get("/api/message/" + id) *)
| Other (e : Effect).

Definition set_messages (data : list MessageObject) (c : Component)
  : Component :=
  mkComponent data (newMessage c) (socketConnected c) (typing c) (istyping c)
    (typingTimeoutRef c) (selectedChat c) (notification c) (fetchAgain c)
    (selectedChatCompare c) (timers c) (next_timer c).

(** [fetchMessages], the server's answer given by [respond] ([None]: the
    request fails). *)
Definition fetchMessages (respond : ObjectId -> option (list MessageObject))
    (v : View) : View * list FetchEffect :=
  match selectedChat (component v) with
  | None => (v, [])
  | Some id =>
      match respond id with
      | Some data =>
          (mkView (set_messages data (component v)) false,
           [Get id; Other (Emit "join chat" (Some id))])
      | None =>
          (mkView (component v) true,
           [Get id; Other (Toast "Failed to Load the Messages")])
      end
  end.

(** [setSelectedChat(chat)] followed by the effect that depends on
    [selectedChat]: the messages are fetched and [selectedChatCompare]
    follows the selection.  The request is answered before any other
    event reaches the component. *)
Definition select (chat : option ObjectId)
    (respond : ObjectId -> option (list MessageObject)) (v : View)
  : View * list FetchEffect :=
  let c := component v in
  let selected :=
    mkComponent (messages c) (newMessage c) (socketConnected c) (typing c)
      (istyping c) (typingTimeoutRef c) chat (notification c) (fetchAgain c)
      (selectedChatCompare c) (timers c) (next_timer c) in
  let (v', effects) := fetchMessages respond (mkView selected (loading v)) in
  let c' := component v' in
  (mkView
     (mkComponent (messages c') (newMessage c') (socketConnected c')
        (typing c') (istyping c') (typingTimeoutRef c') (selectedChat c')
        (notification c') (fetchAgain c') chat (timers c') (next_timer c'))
     (loading v'),
   effects).

(** *** Vocabulary of the client properties *)

(** Keystrokes, each with its time and the text of the input box after
    it, as a timeline of change events. *)
Definition changes (keys : list (nat * jsstring)) : list (nat * Event) :=
  map (fun k => (fst k, Change (snd k))) keys.

(** A burst that starts at [t]: each keystroke comes no earlier than the
    one before it and less than [typing_delay] after it. *)
Fixpoint burst (t : nat) (rest : list (nat * jsstring)) : Prop :=
  match rest with
  | [] => True
  | k :: more => t <= fst k /\ fst k < t + typing_delay /\ burst (fst k) more
  end.

Fixpoint last_keystroke (t : nat) (rest : list (nat * jsstring)) : nat :=
  match rest with
  | [] => t
  | k :: more => last_keystroke (fst k) more
  end.

(** How many times [signal] was emitted. *)
Definition emitted (signal : string) (trace : list (nat * Effect)) : nat :=
  List.length
    (filter (fun e => match snd e with
                      | Emit s _ => String.eqb s signal
                      | _ => false
                      end) trace).

(** Every pending timer is the one [typingTimeoutRef] refers to. *)
Definition referenced (c : Component) : Prop :=
  forall t, In t (timers c) -> typingTimeoutRef c = Some (timer_id t).

(** The state between two keystrokes of a burst: connected, typing, and
    exactly one pending timer, set by the keystroke at [t] and referred
    to by [typingTimeoutRef]. *)
Definition armed (c : Component) (t : nat) (room : option ObjectId) : Prop :=
  socketConnected c = true /\ typing c = true /\ selectedChat c = room /\
  exists id,
    typingTimeoutRef c = Some id /\
    timers c = [mkTimer id (t + typing_delay) room].

(** Text that [trim] reduces to nothing: whitespace only. *)
Definition blank (s : jsstring) : bool := forallb is_whitespace s.

(** The typing state of a connected component between events: either
    idle (not typing, no timer), or typing with the one timer of the last
    keystroke pending, due at [bound] at the latest. *)
Definition debouncing (c : Component) (bound : nat) : Prop :=
  socketConnected c = true /\
  ((typing c = false /\ timers c = []) \/
   exists t room, armed c t room /\ t + typing_delay <= bound).

(** 1 while the typing flag is on. *)
Definition typing_now (c : Component) : nat := if typing c then 1 else 0.

(** A notification list with one entry, and a message of another chat
    arriving while no chat is open. *)
Definition earlier_message : MessageObject :=
  mkMessageObject 1 (mkMessage 1 2 "first" 7 10).

Definition later_message : MessageObject :=
  mkMessageObject 2 (mkMessage 2 2 "second" 7 20).

Definition one_notification : Component :=
  mkComponent [] [] true false false None None [earlier_message] false None
    [] 1.

End SingleChat.

(** ** frontend/src/components/Authentication/Login.js *)

Module Login.

(** The component's [useState] cells, the [user] of the ChatState
    context and the "userInfo" entry of localStorage.  The data the
    server answers a login with is represented by its JSON text. *)
Record State := mkState {
  show : bool;
  email : string;
  password : string;
  loading : bool;
  user : option string;
  userInfo : option string
}.

(** The outcome of [axios.post("/api/user/login")]: the data, or an error
    with [error.response?.data?.message] ([None]: undefined). *)
Inductive Answer :=
| Fulfilled (data : string)
| Rejected (message : option string).

Inductive Effect :=
| Toast (title status : string) (description : option string)
| PostLogin (email password : string)
| Push (path : string).                      (* history.push(path) *)

(** [handleClick]: shows or hides the password. *)
Definition handleClick (s : State) : State :=
  mkState (negb (show s)) (email s) (password s) (loading s) (user s)
          (userInfo s).

(** The "Get Guest User Credentials" button. *)
Definition guestCredentials (s : State) : State :=
  mkState (show s) "guest@example.com" "123456" (loading s) (user s)
          (userInfo s).

(** [error.response?.data?.message || "An error occurred"]. *)
Definition error_description (message : option string) : string :=
  match message with
  | Some text => if String.eqb text EmptyString then "An error occurred"
                 else text
  | None => "An error occurred"
  end.

(** [submitHandler], the server's answer given by [respond]. *)
Definition submitHandler (respond : string -> string -> Answer) (s : State)
  : State * list Effect :=
  if String.eqb (email s) EmptyString || String.eqb (password s) EmptyString
  then
    (mkState (show s) (email s) (password s) false (user s) (userInfo s),
     [Toast "Please Fill all the Fields" "warning" None])
  else
    match respond (email s) (password s) with
    | Fulfilled data =>
        (mkState (show s) (email s) (password s) false (Some data)
                 (Some data),
         [PostLogin (email s) (password s);
          Toast "Login Successful" "success" None;
          Push "/chats"])
    | Rejected message =>
        (mkState (show s) (email s) (password s) false (user s) (userInfo s),
         [PostLogin (email s) (password s);
          Toast "Error Occurred!" "error" (Some (error_description message))])
    end.

End Login.

(** ** Vocabulary of the properties *)

Import Mongoose ChatControllers MessageControllers.

(** The chat, the chats and the message a response carries. *)
Definition response_chat (r : Response) : option Chat :=
  match body r with
  | ChatDoc (Some pc) => Some (pc_doc pc)
  | _ => None
  end.

Definition response_chats (r : Response) : list Chat :=
  match body r with
  | ChatDocs l => map pc_doc l
  | _ => []
  end.

Definition response_message (r : Response) : option PopulatedMessage :=
  match body r with
  | MessageDoc m => m
  | _ => None
  end.

(** A response that carries a message for the caller to read: a JSON
    [message], or a text of the handler's own.  The status text that
    [res.sendStatus] sends with a bare status is not one. *)
Definition carries_message (r : Response) : Prop :=
  exists text,
    text <> EmptyString /\
    (body r = JsonMessage text \/
     (body r = Text text /\ text <> status_text (status r))).

(** The operations on chats, and the states they lead to from the empty
    database. *)
Inductive Operation :=
| AccessChat (user : ObjectId) (userId : option ObjectId)
| CreateGroupChat (user : ObjectId) (req : GroupBody)
| RenameGroup (chatId : ObjectId) (name : option string)
| AddToGroup (chatId userId : ObjectId)
| RemoveFromGroup (chatId userId : ObjectId).

Definition perform (now : nat) (op : Operation) (db : Store) : Store :=
  match op with
  | AccessChat user userId => fst (accessChat now user userId db)
  | CreateGroupChat user req => fst (createGroupChat now user req db)
  | RenameGroup chatId name => fst (renameGroup now chatId name db)
  | AddToGroup chatId userId => fst (addToGroup now chatId userId db)
  | RemoveFromGroup chatId userId => fst (removeFromGroup now chatId userId db)
  end.

Inductive reachable : Store -> Prop :=
| reachable_empty : reachable empty_store
| reachable_step now op db :
    reachable db -> reachable (perform now op db).

(** The states reached from the empty database by operations that
    [allowed] admits. *)
Inductive reachable_by (allowed : Operation -> bool) : Store -> Prop :=
| reached_empty : reachable_by allowed empty_store
| reached_step now op db :
    allowed op = true -> reachable_by allowed db ->
    reachable_by allowed (perform now op db).

(** Every operation but removeFromGroup. *)
Definition removes_nobody (op : Operation) : bool :=
  match op with
  | RemoveFromGroup _ _ => false
  | _ => true
  end.

(** Every operation but addToGroup and removeFromGroup. *)
Definition changes_no_members (op : Operation) : bool :=
  match op with
  | AddToGroup _ _ | RemoveFromGroup _ _ => false
  | _ => true
  end.

(** Every operation but renameGroup. *)
Definition renames_nothing (op : Operation) : bool :=
  match op with
  | RenameGroup _ _ => false
  | _ => true
  end.

(** Every operation but a renameGroup to a null or empty name. *)
Definition takes_no_name (op : Operation) : bool :=
  match op with
  | RenameGroup _ name => truthy name
  | _ => true
  end.

(** The participants of a chat: the users its array names, each once. *)
Definition participants (c : Chat) : list ObjectId :=
  nodup Nat.eq_dec (users c).

(** A chat with a name: a text that is not empty. *)
Definition has_name (c : Chat) : Prop :=
  exists name, chatName c = Some name /\ name <> EmptyString.

(** The invariants of the data model, as the specification words them. *)
Definition direct_invariant (c : Chat) : Prop :=
  List.length (participants c) = 2 /\ chatName c = None /\
  groupAdmin c = None.

Definition group_invariant (c : Chat) : Prop :=
  2 <= List.length (participants c) /\ has_name c /\
  (exists admin, groupAdmin c = Some admin /\ In admin (participants c)).

Definition chat_invariant (c : Chat) : Prop :=
  if isGroupChat c then group_invariant c else direct_invariant c.

Definition data_model_invariant (db : Store) : Prop :=
  Forall chat_invariant (chats db).

(** What every operation keeps: only a group chat has an admin. *)
Definition admin_invariant (c : Chat) : Prop :=
  if isGroupChat c then exists admin, groupAdmin c = Some admin
  else groupAdmin c = None.

(** What the operations keep as long as nobody is removed.  The length
    counts the entries of the array, which may name a user twice. *)
Definition members_invariant (c : Chat) : Prop :=
  if isGroupChat c then
    3 <= List.length (users c) /\
    (exists admin, groupAdmin c = Some admin /\ In admin (participants c))
  else 2 <= List.length (users c).

(** What the operations keep of a direct chat as long as nobody is
    added or removed, and as long as nothing is renamed. *)
Definition direct_pair (c : Chat) : Prop :=
  isGroupChat c = false -> List.length (users c) = 2.

Definition direct_placeholder (c : Chat) : Prop :=
  isGroupChat c = false -> chatName c = Some "sender".

(** The time of a chat's latest message. *)
Definition message_recency (db : Store) (c : Chat) : option nat :=
  match latestMessage c with
  | Some mid => option_map createdAt (findMessageById mid (messages db))
  | None => None
  end.

(** [a] may stand before [b] in a list ordered by latest message, most
    recent first (a chat without messages constrains nothing). *)
Definition message_not_older (db : Store) (a b : Chat) : Prop :=
  match message_recency db a, message_recency db b with
  | Some ta, Some tb => tb <= ta
  | _, _ => True
  end.

(** [a] may stand before [b] in a list ordered by [updatedAt],
    descending. *)
Definition update_not_older (a b : Chat) : Prop := updatedAt b <= updatedAt a.

(** A history in which the two orders differ: user 1 creates a group
    (chat 1) and a direct chat (chat 2), sends a message to each, the
    direct chat last, and then renames the group. *)
Definition renamed_after_messages : Store :=
  let db1 := fst (createGroupChat 1 1 (mkGroupBody (UsersArray [2; 3])
                                                   (Some "team")) empty_store) in
  let db2 := fst (accessChat 2 1 (Some 2) db1) in
  let db3 := fst (sendMessage 3 1 (Some "hello") (Some 1) db2) in
  let db4 := fst (sendMessage 4 1 (Some "hi") (Some 2) db3) in
  fst (renameGroup 5 1 (Some "crew") db4).

(** Histories that break the invariants.  A direct chat is created with
    a name; a third user is added to it. *)
Definition named_direct : Store :=
  perform 1 (AccessChat 1 (Some 2)) empty_store.

Definition direct_of_three : Store :=
  perform 2 (AddToGroup 1 3) named_direct.

(** User 1 creates a group and names only themself, twice. *)
Definition group_of_one : Store :=
  perform 1 (CreateGroupChat 1 (mkGroupBody (UsersArray [1; 1])
                                            (Some "team")))
    empty_store.

(** User 1 creates a group with users 2 and 3; it is renamed to null. *)
Definition unnamed_group : Store :=
  perform 2 (RenameGroup 1 None)
    (perform 1 (CreateGroupChat 1 (mkGroupBody (UsersArray [2; 3])
                                               (Some "team")))
       empty_store).

(** User 1 creates a group with users 2 and 3, and then the three of
    them are removed. *)
Definition emptied_group : Store :=
  perform 4 (RemoveFromGroup 1 3)
    (perform 3 (RemoveFromGroup 1 2)
       (perform 2 (RemoveFromGroup 1 1)
          (perform 1 (CreateGroupChat 1 (mkGroupBody (UsersArray [2; 3])
                                                     (Some "team")))
             empty_store))).

(** Every handler of the two controllers, as a request. *)
Inductive Request :=
| ChatOperation (op : Operation)
| FetchChats (user : ObjectId)
| AllMessages (chatId : ObjectId)
| SendMessage (user : ObjectId) (content : option string)
    (chatId : option ObjectId).

(** The database after a request handled at time [now]. *)
Definition serve (now : nat) (r : Request) (db : Store) : Store :=
  match r with
  | ChatOperation op => perform now op db
  | FetchChats user => fst (fetchChats user db)
  | AllMessages chatId => fst (allMessages chatId db)
  | SendMessage user content chatId =>
      fst (sendMessage now user content chatId db)
  end.

(** The databases the handlers lead to from the empty one. *)
Inductive served : Store -> Prop :=
| served_empty : served empty_store
| served_step now r db : served db -> served (serve now r db).

(** The messages a response carries. *)
Definition response_messages (r : Response) : list Message :=
  match body r with
  | MessageDocs ms => map pm_doc ms
  | _ => []
  end.

(** The messages allMessages answers with for a chat. *)
Definition history (chatId : ObjectId) (db : Store) : list Message :=
  response_messages (snd (allMessages chatId db)).

(** A chat's [latestMessage], when set, is the last message of its
    history. *)
Definition latest_is_last (db : Store) (c : Chat) : Prop :=
  match latestMessage c with
  | None => True
  | Some mid =>
      exists earlier m,
        history (_id c) db = earlier ++ [m] /\ message_id m = mid
  end.

(** A document as findByIdAndUpdate leaves it: [updatedAt] stamped. *)
Definition touch (now : nat) (c : Chat) : Chat :=
  mkChat (_id c) (chatName c) (isGroupChat c) (users c) (latestMessage c)
         (groupAdmin c) now.

(** The five ways a handler changes the database: not at all; a new chat
    at the end; one chat replaced in place, its id and latest message
    kept; a new message whose chat id matches no chat; a new message
    together with its chat, replaced in place, referring to it. *)
Inductive transition (db : Store) : Store -> Prop :=
| t_stays : transition db db
| t_new_chat c :
    _id c = fresh_id (map _id (chats db)) -> latestMessage c = None ->
    transition db (mkStore (chats db ++ [c]) (messages db))
| t_update pre c c' post :
    chats db = pre ++ c :: post -> findChatById (_id c) pre = None ->
    _id c' = _id c -> latestMessage c' = latestMessage c ->
    transition db (mkStore (pre ++ c' :: post) (messages db))
| t_orphan m :
    message_id m = fresh_id (map message_id (messages db)) ->
    findChatById (chat m) (chats db) = None ->
    transition db (mkStore (chats db) (messages db ++ [m]))
| t_message pre c c' post m :
    message_id m = fresh_id (map message_id (messages db)) ->
    chats db = pre ++ c :: post -> findChatById (_id c) pre = None ->
    chat m = _id c -> _id c' = _id c ->
    latestMessage c' = Some (message_id m) ->
    transition db (mkStore (pre ++ c' :: post) (messages db ++ [m])).

(** * Properties of the server *)

(** ** Lists and the Mongoose layer *)

Lemma find_app_first {A : Type} (f : A -> bool) (l l' : list A) (x : A) :
  find f l = Some x -> find f (l ++ l') = Some x.
Proof.
  induction l as [|a l IH]; simpl; [discriminate|].
  destruct (f a); auto.
Qed.

Lemma find_app_second {A : Type} (f : A -> bool) (l l' : list A) :
  find f l = None -> find f (l ++ l') = find f l'.
Proof.
  induction l as [|a l IH]; simpl; [reflexivity|].
  destruct (f a); [discriminate|auto].
Qed.

Lemma find_exists {A : Type} (f : A -> bool) (l : list A) (x : A) :
  In x l -> f x = true -> exists y, find f l = Some y.
Proof.
  intros Hin Hf. destruct (find f l) as [y|] eqn:E; [eauto|].
  rewrite (find_none f l E x Hin) in Hf. discriminate.
Qed.

Lemma fresh_id_above (ids : list ObjectId) (x : ObjectId) :
  In x ids -> x < fresh_id ids.
Proof.
  intros Hin. unfold fresh_id.
  assert (H : Forall (fun k => k <= list_max ids) ids)
    by (apply list_max_le; lia).
  rewrite Forall_forall in H. specialize (H x Hin). lia.
Qed.

Lemma findChatById_fresh (l : list Chat) :
  findChatById (fresh_id (map _id l)) l = None.
Proof.
  unfold findChatById, findOne.
  destruct (find _ l) as [c|] eqn:E; [|reflexivity].
  apply find_some in E. destruct E as [Hin Heq].
  apply Nat.eqb_eq in Heq.
  pose proof (fresh_id_above (map _id l) (_id c) (in_map _id l c Hin)). lia.
Qed.

Lemma findMessageById_fresh (l : list Message) :
  findMessageById (fresh_id (map message_id l)) l = None.
Proof.
  unfold findMessageById, findOne.
  destruct (find _ l) as [m|] eqn:E; [|reflexivity].
  apply find_some in E. destruct E as [Hin Heq].
  apply Nat.eqb_eq in Heq.
  pose proof (fresh_id_above (map message_id l) (message_id m)
                (in_map message_id l m Hin)). lia.
Qed.

Lemma mem_In (x : ObjectId) (l : list ObjectId) : mem x l = true <-> In x l.
Proof.
  unfold mem. rewrite existsb_exists. split.
  - intros [y [Hin Heq]]. apply Nat.eqb_eq in Heq. now subst.
  - intros Hin. exists x. split; [assumption|apply Nat.eqb_refl].
Qed.

Lemma direct_between_sym (a b : ObjectId) (c : Chat) :
  direct_between a b c = direct_between b a c.
Proof.
  unfold direct_between.
  destruct (isGroupChat c), (mem a (users c)), (mem b (users c)); reflexivity.
Qed.

Lemma findOne_direct_between_sym (a b : ObjectId) (l : list Chat) :
  findOne (direct_between a b) l = findOne (direct_between b a) l.
Proof.
  unfold findOne. induction l as [|c l IH]; simpl; [reflexivity|].
  rewrite (direct_between_sym a b c), IH. reflexivity.
Qed.

Lemma findChatById_none_ids (id : ObjectId) (l : list Chat) :
  findChatById id l = None -> ~ In id (map _id l).
Proof.
  intros Hnone Hin. apply in_map_iff in Hin. destruct Hin as [c [Hc Hin]].
  pose proof (find_none _ _ Hnone c Hin) as H. cbn in H.
  rewrite Hc, Nat.eqb_refl in H. discriminate.
Qed.

Lemma findChatById_unique (l : list Chat) (c : Chat) :
  NoDup (map _id l) -> In c l -> findChatById (_id c) l = Some c.
Proof.
  unfold findChatById, findOne.
  induction l as [|d l IH]; intros Hnd Hin; [destruct Hin|].
  cbn in *. inversion Hnd as [|? ? Hnot Hnd']; subst.
  destruct Hin as [->|Hin]; [rewrite Nat.eqb_refl; reflexivity|].
  destruct (_id d =? _id c) eqn:E; [|auto].
  apply Nat.eqb_eq in E. exfalso. apply Hnot. rewrite E.
  apply in_map. exact Hin.
Qed.

(** ** accessChat *)

Lemma accessChat_found (now : nat) (a b : ObjectId) (db : Store) (c : Chat) :
  findOne (direct_between a b) (chats db) = Some c ->
  exists c',
    findChatById (_id c) (chats db) = Some c' /\ In c' (chats db) /\
    accessChat now a (Some b) db
    = (db, send (ChatDoc (Some (populateChat db c')))).
Proof.
  intros Hfound. unfold accessChat. rewrite Hfound.
  apply find_some in Hfound. destruct Hfound as [Hin _].
  destruct (find_exists (fun d => _id d =? _id c) (chats db) c Hin
              (Nat.eqb_refl _)) as [c' Hc'].
  exists c'. unfold findChatById, findOne. rewrite Hc'.
  split; [reflexivity|]. split; [|reflexivity].
  apply find_some in Hc'. tauto.
Qed.

Lemma accessChat_created (now : nat) (a b : ObjectId) (db : Store) :
  findOne (direct_between a b) (chats db) = None ->
  let c := mkChat (fresh_id (map _id (chats db))) (Some "sender") false
                  [a; b] None None now in
  accessChat now a (Some b) db
  = (mkStore (chats db ++ [c]) (messages db),
     mkResponse 200 (ChatDoc (Some (mkPopulatedChat c None)))).
Proof.
  intros Hnone c. unfold accessChat. rewrite Hnone.
  unfold createChat. cbn [chats _id].
  unfold findChatById, findOne.
  rewrite find_app_second by apply findChatById_fresh.
  simpl. rewrite Nat.eqb_refl. reflexivity.
Qed.

(** C1.  Find-or-create is idempotent.  In a database whose chat ids are
    distinct, accessChat by A for B answers 200 with a non-group chat of
    the database whose participants include both A and B.  When such a
    chat exists already, the answer is one of the database and nothing is
    created; when none exists, the answer is the one chat the call
    appends, with participants A and B.  Whatever the first call did, a
    second call for the same two users, made by either of them, leaves
    the database as the first call left it and gives the same answer, so
    the same chat and the same id. *)
Theorem accessChat_idempotent (now1 now2 : nat) (A B : ObjectId) (db : Store) :
  A <> B ->
  NoDup (map _id (chats db)) ->
  let first := accessChat now1 A (Some B) db in
  exists c,
    status (snd first) = 200 /\
    response_chat (snd first) = Some c /\
    In c (chats (fst first)) /\
    isGroupChat c = false /\ In A (users c) /\ In B (users c) /\
    ((exists c0, In c0 (chats db) /\ isGroupChat c0 = false /\
                 In A (users c0) /\ In B (users c0)) ->
     fst first = db /\ In c (chats db)) /\
    ((forall c0, In c0 (chats db) -> isGroupChat c0 = false ->
                 In A (users c0) -> ~ In B (users c0)) ->
     chats (fst first) = chats db ++ [c] /\
     messages (fst first) = messages db /\
     users c = [A; B] /\ ~ In (_id c) (map _id (chats db))) /\
    accessChat now2 A (Some B) (fst first) = first /\
    accessChat now2 B (Some A) (fst first) = first /\
    response_chat (snd (accessChat now2 A (Some B) (fst first))) = Some c /\
    response_chat (snd (accessChat now2 B (Some A) (fst first))) = Some c.
Proof.
  intros _ Hnd first. subst first.
  destruct (findOne (direct_between A B) (chats db)) as [c|] eqn:Hfind.
  - destruct (accessChat_found now1 A B db c Hfind) as [c' [Hid [_ Heq]]].
    pose proof (find_some _ _ Hfind) as [Hin Hq].
    rewrite (findChatById_unique _ _ Hnd Hin) in Hid. injection Hid as <-.
    unfold direct_between in Hq.
    apply andb_true_iff in Hq. destruct Hq as [Hq HB].
    apply andb_true_iff in Hq. destruct Hq as [Hg HA].
    apply negb_true_iff in Hg. apply mem_In in HA, HB.
    assert (Hagain : forall a b,
               findOne (direct_between a b) (chats db) = Some c ->
               accessChat now2 a (Some b) db
               = (db, send (ChatDoc (Some (populateChat db c))))).
    { intros a b Hab.
      destruct (accessChat_found now2 a b db c Hab) as [d [Hd [_ Hres]]].
      rewrite (findChatById_unique _ _ Hnd Hin) in Hd. injection Hd as <-.
      exact Hres. }
    assert (Hsym : findOne (direct_between B A) (chats db) = Some c)
      by (rewrite <- findOne_direct_between_sym; exact Hfind).
    rewrite Heq. cbn [fst snd]. exists c.
    split; [reflexivity|]. split; [reflexivity|].
    repeat (split; [assumption|]).
    split; [intros _; auto|].
    split; [intros Hnone; destruct (Hnone c Hin Hg HA HB)|].
    rewrite (Hagain A B Hfind), (Hagain B A Hsym). cbn [snd]. auto.
  - rewrite (accessChat_created now1 A B db Hfind). cbn [fst snd].
    set (c := mkChat _ _ _ _ _ _ _).
    set (db1 := mkStore _ _).
    assert (Hnew : findOne (direct_between A B) (chats db1) = Some c).
    { unfold findOne, db1. cbn [chats].
      rewrite find_app_second by exact Hfind.
      cbn. unfold direct_between. cbn.
      rewrite !Nat.eqb_refl. cbn. rewrite orb_true_r. reflexivity. }
    assert (Hagain : forall a b,
               findOne (direct_between a b) (chats db1) = Some c ->
               accessChat now2 a (Some b) db1
               = (db1, mkResponse 200 (ChatDoc (Some (mkPopulatedChat c None))))).
    { intros a b Hab.
      destruct (accessChat_found now2 a b db1 c Hab) as [d [Hid [_ Heq]]].
      assert (d = c).
      { unfold findChatById, findOne, db1 in Hid. cbn [chats] in Hid.
        rewrite find_app_second in Hid by apply findChatById_fresh.
        cbn in Hid. rewrite Nat.eqb_refl in Hid. congruence. }
      subst d. rewrite Heq. reflexivity. }
    assert (Hsym : findOne (direct_between B A) (chats db1) = Some c)
      by (rewrite <- findOne_direct_between_sym; exact Hnew).
    exists c. split; [reflexivity|]. split; [reflexivity|].
    split; [cbn; apply in_or_app; right; now left|].
    split; [reflexivity|]. split; [cbn; auto|]. split; [cbn; auto|].
    split.
    { intros [c0 [Hin [Hg [HA HB]]]]. exfalso.
      pose proof (find_none _ _ Hfind c0 Hin) as Hf.
      unfold direct_between in Hf. rewrite Hg in Hf.
      apply mem_In in HA, HB. rewrite HA, HB in Hf. discriminate. }
    split.
    { intros _. repeat split.
      apply findChatById_none_ids. apply findChatById_fresh. }
    rewrite (Hagain A B Hnew), (Hagain B A Hsym). cbn [snd]. auto.
Qed.

(** On the empty database: user 1 opens a chat with user 2, then user 2
    opens one with user 1. *)
Lemma accessChat_idempotent_witness :
  1 <> 2 /\ NoDup (map _id (chats empty_store)) /\
  exists c,
    response_chat (snd (accessChat 5 1 (Some 2) empty_store)) = Some c /\
    In 1 (users c) /\ In 2 (users c) /\
    accessChat 8 2 (Some 1) (fst (accessChat 5 1 (Some 2) empty_store))
    = accessChat 5 1 (Some 2) empty_store.
Proof.
  split; [discriminate|]. split; [constructor|].
  destruct (accessChat_idempotent 5 8 1 2 empty_store)
    as [c [_ [Hr [_ [_ [H1 [H2 [_ [_ [_ [Hb _]]]]]]]]]]].
  - discriminate.
  - constructor.
  - exists c. auto.
Defined.

(** ** Validation errors *)

(** C8, as the code has it.  A request without a required field is
    answered with status 400 and writes nothing.  sendMessage without
    [content] or without [chatId] sends a JSON [message] with it.
    accessChat without [userId] sends the bare status: its body is the
    status text "Bad Request" and no message of the handler's (that one
    is only logged). *)
Theorem missing_field_is_400 (now : nat) (user : ObjectId) (db : Store) :
  (accessChat now user None db = (db, mkResponse 400 (Text "Bad Request")) /\
   body (snd (accessChat now user None db)) = Text (status_text 400) /\
   ~ carries_message (snd (accessChat now user None db))) /\
  (forall content chatId,
      truthy content = false \/ chatId = None ->
      sendMessage now user content chatId db
      = (db, mkResponse 400 (JsonMessage "Content and chatId are required."))
      /\ carries_message (snd (sendMessage now user content chatId db))).
Proof.
  split.
  - split; [reflexivity|]. split; [reflexivity|].
    intros [text [_ [H|[H Hstatus]]]]; cbn in *; [discriminate|].
    injection H as <-. apply Hstatus. reflexivity.
  - intros content chatId Hmissing.
    assert (Heq : sendMessage now user content chatId db
                  = (db, mkResponse 400
                           (JsonMessage "Content and chatId are required."))).
    { unfold sendMessage.
      destruct content as [text|], chatId as [cid|]; try reflexivity.
      - destruct Hmissing as [Hfalsy|Hnone]; [|discriminate].
        cbn in Hfalsy. apply negb_false_iff in Hfalsy.
        rewrite Hfalsy. reflexivity. }
    rewrite Heq. split; [reflexivity|].
    exists "Content and chatId are required.".
    split; [discriminate|left; reflexivity].
Qed.

(** A message with empty content. *)
Lemma missing_field_is_400_witness :
  sendMessage 3 1 (Some EmptyString) (Some 7) empty_store
  = (empty_store,
     mkResponse 400 (JsonMessage "Content and chatId are required.")).
Proof.
  apply (proj2 (missing_field_is_400 3 1 empty_store) (Some EmptyString)
           (Some 7)).
  left. reflexivity.
Defined.

(** C8, as the specification words it, fails for accessChat: the answer
    to a request without [userId] is the status alone. *)
Lemma accessChat_bare_status_counterexample :
  status (snd (accessChat 3 1 None empty_store)) = 400 /\
  body (snd (accessChat 3 1 None empty_store)) = Text (status_text 400) /\
  ~ carries_message (snd (accessChat 3 1 None empty_store)).
Proof.
  split; [reflexivity|]. split; [reflexivity|].
  intros [text [_ [H|[H Hstatus]]]]; cbn in *; [discriminate|].
  injection H as <-. apply Hstatus. reflexivity.
Qed.

(** ** createGroupChat *)

Lemma createGroupChat_success (now : nat) (user : ObjectId) (req : GroupBody)
    (db : Store) :
  status (snd (createGroupChat now user req db)) = 200 ->
  exists parsed name,
    body_users req = UsersArray parsed /\ 2 <= List.length parsed /\
    body_name req = Some name /\ name <> EmptyString /\
    let c := mkChat (fresh_id (map _id (chats db))) (Some name) true
                    (parsed ++ [user]) None (Some user) now in
    createGroupChat now user req db
    = (mkStore (chats db ++ [c]) (messages db),
       mkResponse 200 (ChatDoc (Some (mkPopulatedChat c None)))).
Proof.
  unfold createGroupChat.
  destruct (body_users req) as [| |parsed] eqn:Husers;
    destruct (body_name req) as [name|] eqn:Hname; cbn [truthy];
    try (cbn; discriminate);
    destruct (String.eqb name EmptyString) eqn:Hempty; cbn [negb];
    try (cbn; discriminate).
  destruct (List.length parsed <? 2) eqn:Hlen; [cbn; discriminate|].
  intros _. exists parsed, name.
  apply Nat.ltb_ge in Hlen. apply String.eqb_neq in Hempty.
  repeat split; try assumption.
  unfold createChat. cbn [chats _id fst snd].
  unfold findChatById, findOne.
  rewrite find_app_second by apply findChatById_fresh.
  simpl. rewrite Nat.eqb_refl. reflexivity.
Qed.

Lemma two_in_length {A : Type} (l : list A) (x y : A) :
  In x l -> In y l -> x <> y -> 2 <= List.length l.
Proof.
  destruct l as [|a [|b r]]; simpl; intros Hx Hy Hne.
  - destruct Hx.
  - destruct Hx as [<-|[]], Hy as [<-|[]]. now destruct Hne.
  - lia.
Qed.

Lemma nodup_other (l : list ObjectId) (x : ObjectId) :
  2 <= List.length (nodup Nat.eq_dec l) -> exists y, In y l /\ y <> x.
Proof.
  pose proof (NoDup_nodup Nat.eq_dec l) as Hnd.
  assert (Hin : forall y, In y (nodup Nat.eq_dec l) -> In y l)
    by (intros y; apply nodup_In).
  destruct (nodup Nat.eq_dec l) as [|a [|b r]]; simpl; intros Hlen; try lia.
  inversion Hnd as [|? ? Hnot _]; subst.
  destruct (Nat.eq_dec a x) as [->|Hne].
  - exists b. split; [apply Hin; right; now left|].
    intros ->. apply Hnot. now left.
  - exists a. split; [apply Hin; now left|exact Hne].
Qed.

Lemma participants_of_group (parsed : list ObjectId) (user : ObjectId)
    (c : Chat) :
  users c = parsed ++ [user] ->
  In user (participants c) /\
  (2 <= List.length (participants c) <-> exists u, In u parsed /\ u <> user).
Proof.
  intros Hu. unfold participants. rewrite Hu. split.
  - apply nodup_In, in_or_app. right. now left.
  - split.
    + intros Hlen. destruct (nodup_other _ user Hlen) as [y [Hy Hne]].
      exists y. split; [|exact Hne].
      apply in_app_or in Hy. destruct Hy as [Hy|[<-|[]]]; [exact Hy|].
      now destruct Hne.
    + intros [u [Hin Hne]]. apply (two_in_length _ u user).
      * apply nodup_In, in_or_app. now left.
      * apply nodup_In, in_or_app. right. now left.
      * exact Hne.
Qed.

(** C5, as the code has it.  A createGroupChat request whose parsed
    [users] array has fewer than 2 entries is answered with status 400
    and a message, and creates no chat.  A request that succeeds has
    created a group chat with a non-empty name whose array of
    participants has at least 3 entries, the parsed ones followed by the
    creator.  The entries are not checked to be different users: the chat
    has at least 2 participants exactly when the parsed array names a
    user other than the creator. *)
Theorem createGroupChat_validates (now : nat) (user : ObjectId)
    (req : GroupBody) (db : Store) :
  (forall parsed,
      body_users req = UsersArray parsed -> List.length parsed < 2 ->
      status (snd (createGroupChat now user req db)) = 400 /\
      carries_message (snd (createGroupChat now user req db)) /\
      fst (createGroupChat now user req db) = db) /\
  (status (snd (createGroupChat now user req db)) = 200 ->
   exists parsed c name,
     body_users req = UsersArray parsed /\
     response_chat (snd (createGroupChat now user req db)) = Some c /\
     chats (fst (createGroupChat now user req db)) = chats db ++ [c] /\
     isGroupChat c = true /\
     users c = parsed ++ [user] /\
     3 <= List.length (users c) /\
     chatName c = Some name /\ name <> EmptyString /\
     In user (participants c) /\
     (2 <= List.length (participants c) <->
      exists u, In u parsed /\ u <> user)).
Proof.
  split.
  - intros parsed Husers Hlen. unfold createGroupChat. rewrite Husers.
    destruct (truthy (body_name req)).
    + apply Nat.ltb_lt in Hlen. rewrite Hlen. cbn.
      repeat split.
      exists "At least 2 users are required to form a group chat".
      split; [discriminate|right; split; [reflexivity|discriminate]].
    + cbn. repeat split. exists "Please fill all the fields".
      split; [discriminate|left; reflexivity].
  - intros Hok.
    destruct (createGroupChat_success now user req db Hok)
      as [parsed [name [Hu [Hlen [_ [Hname Heq]]]]]].
    cbv zeta in Heq. rewrite Heq. cbn [fst snd].
    exists parsed. eexists. exists name.
    split; [exact Hu|]. split; [reflexivity|]. split; [reflexivity|].
    cbn [pc_doc isGroupChat users chatName].
    split; [reflexivity|]. split; [reflexivity|].
    split; [rewrite length_app; cbn; lia|].
    split; [reflexivity|]. split; [exact Hname|].
    apply participants_of_group. reflexivity.
Qed.

(** A group of one user is refused; a group of two is created with its
    name. *)
Lemma createGroupChat_validates_witness :
  status (snd (createGroupChat 4 1 (mkGroupBody (UsersArray [2]) (Some "team"))
                 empty_store)) = 400 /\
  exists parsed c name,
    response_chat
      (snd (createGroupChat 4 1 (mkGroupBody (UsersArray [2; 3]) (Some "team"))
              empty_store)) = Some c /\
    users c = parsed ++ [1] /\
    chatName c = Some name /\ name <> EmptyString.
Proof.
  split.
  - apply (createGroupChat_validates 4 1
             (mkGroupBody (UsersArray [2]) (Some "team")) empty_store) with [2].
    + reflexivity.
    + simpl. lia.
  - destruct (proj2 (createGroupChat_validates 4 1
                       (mkGroupBody (UsersArray [2; 3]) (Some "team"))
                       empty_store) eq_refl)
      as [parsed [c [name [_ [Hc [_ [_ [Hu [_ [Hn [Hne _]]]]]]]]]]].
    exists parsed, c, name. auto.
Defined.

(** C5, as the specification words it, fails: a creator who names only
    themself, twice, gets a group of 3 entries and one participant. *)
Lemma createGroupChat_one_participant_counterexample :
  status (snd (createGroupChat 1 1 (mkGroupBody (UsersArray [1; 1])
                                                (Some "team")) empty_store))
  = 200 /\
  option_map users
    (response_chat
       (snd (createGroupChat 1 1 (mkGroupBody (UsersArray [1; 1])
                                              (Some "team")) empty_store)))
  = Some [1; 1; 1] /\
  option_map participants
    (response_chat
       (snd (createGroupChat 1 1 (mkGroupBody (UsersArray [1; 1])
                                              (Some "team")) empty_store)))
  = Some [1] /\
  ~ (forall c, In c (chats group_of_one) ->
               2 <= List.length (participants c)).
Proof.
  split; [reflexivity|]. split; [reflexivity|]. split; [reflexivity|].
  intros H.
  specialize (H (mkChat 1 (Some "team") true [1; 1; 1] None (Some 1) 1)
                (or_introl eq_refl)).
  vm_compute in H. lia.
Qed.

(** ** findByIdAndUpdate *)

Lemma updateFirst_found (id : ObjectId) (upd : Chat -> Chat) (l : list Chat)
    (c : Chat) :
  findChatById id l = Some c ->
  (forall d, _id (upd d) = _id d) ->
  snd (updateFirst id upd l) = Some (upd c) /\
  findChatById id (fst (updateFirst id upd l)) = Some (upd c).
Proof.
  intros Hfind Hid. unfold findChatById, findOne in *.
  induction l as [|d l IH]; simpl in *; [discriminate|].
  destruct (_id d =? id) eqn:E.
  - injection Hfind as ->. simpl. rewrite Hid, E. auto.
  - destruct (updateFirst id upd l) as [l' r]. simpl in *.
    rewrite E. auto.
Qed.

Lemma updateFirst_missing (id : ObjectId) (upd : Chat -> Chat) (l : list Chat) :
  findChatById id l = None -> updateFirst id upd l = (l, None).
Proof.
  unfold findChatById, findOne.
  induction l as [|d l IH]; simpl; [reflexivity|].
  destruct (_id d =? id); [discriminate|].
  intros H. rewrite (IH H). reflexivity.
Qed.

Lemma findByIdAndUpdate_found (now : nat) (id : ObjectId) (upd : Chat -> Chat)
    (db : Store) (c : Chat) :
  findChatById id (chats db) = Some c ->
  (forall d, _id (upd d) = _id d) ->
  let c' := mkChat (_id c) (chatName (upd c)) (isGroupChat (upd c))
                   (users (upd c)) (latestMessage (upd c))
                   (groupAdmin (upd c)) now in
  snd (findByIdAndUpdate now id upd db) = Some c' /\
  findChatById id (chats (fst (findByIdAndUpdate now id upd db))) = Some c' /\
  messages (fst (findByIdAndUpdate now id upd db)) = messages db.
Proof.
  intros Hfind Hid c'. unfold findByIdAndUpdate.
  match goal with
  | |- context [updateFirst id ?f (chats db)] =>
      destruct (updateFirst_found id f (chats db) c Hfind) as [Hr Hl];
      [intros d; cbn; apply Hid|]; destruct (updateFirst id f (chats db))
  end.
  cbn in *. subst c'. rewrite <- (Hid c). auto.
Qed.

(** ** addToGroup *)

(** C9.  addToGroup pushes without a membership check: when the chat
    exists, the call succeeds and the chat's participant list is the old
    one with [userId] appended, whether or not [userId] was in it; after
    two calls with the same [userId] the list ends with two copies. *)
Theorem addToGroup_pushes (now1 now2 : nat) (chatId userId : ObjectId)
    (db : Store) (c : Chat) :
  findChatById chatId (chats db) = Some c ->
  let once := addToGroup now1 chatId userId db in
  let twice := addToGroup now2 chatId userId (fst once) in
  (exists c1,
      status (snd once) = 200 /\ response_chat (snd once) = Some c1 /\
      findChatById chatId (chats (fst once)) = Some c1 /\
      users c1 = users c ++ [userId]) /\
  (exists c2,
      status (snd twice) = 200 /\ response_chat (snd twice) = Some c2 /\
      findChatById chatId (chats (fst twice)) = Some c2 /\
      users c2 = users c ++ [userId; userId] /\
      2 <= count_occ Nat.eq_dec (users c2) userId).
Proof.
  intros Hfind once twice.
  assert (Hstep : forall now db0 c0,
             findChatById chatId (chats db0) = Some c0 ->
             exists c1,
               status (snd (addToGroup now chatId userId db0)) = 200 /\
               response_chat (snd (addToGroup now chatId userId db0)) = Some c1 /\
               findChatById chatId
                 (chats (fst (addToGroup now chatId userId db0))) = Some c1 /\
               users c1 = users c0 ++ [userId]).
  { intros now db0 c0 H0. unfold addToGroup.
    destruct (findByIdAndUpdate_found now chatId
                (fun d => set_users (users d ++ [userId]) d) db0 c0 H0
                (fun d => eq_refl)) as [Hr [Hl _]].
    destruct (findByIdAndUpdate now chatId _ db0) as [db' r].
    cbn [fst snd] in *. subst r. eexists.
    split; [reflexivity|]. split; [reflexivity|]. split; [exact Hl|].
    reflexivity. }
  destruct (Hstep now1 db c Hfind) as [c1 [Hs1 [Hr1 [Hf1 Hu1]]]].
  split; [exists c1; auto|].
  destruct (Hstep now2 (fst once) c1 Hf1) as [c2 [Hs2 [Hr2 [Hf2 Hu2]]]].
  exists c2. repeat split; try assumption.
  - rewrite Hu2, Hu1, <- app_assoc. reflexivity.
  - rewrite Hu2, Hu1, <- app_assoc, count_occ_app. cbn.
    destruct (Nat.eq_dec userId userId); [lia|congruence].
Qed.

(** User 2, already in the chat of users 1 and 2, is added twice more. *)
Lemma addToGroup_pushes_witness :
  let db := fst (accessChat 1 1 (Some 2) empty_store) in
  exists c2,
    findChatById 1 (chats (fst (addToGroup 3 1 2 (fst (addToGroup 2 1 2 db)))))
    = Some c2 /\
    users c2 = [1; 2] ++ [2; 2].
Proof.
  intros db.
  destruct (proj2 (addToGroup_pushes 2 3 1 2 db
                     (mkChat 1 (Some "sender") false [1; 2] None None 1)
                     eq_refl))
    as [c2 [_ [_ [Hf [Hu _]]]]].
  exists c2. split; [exact Hf|exact Hu].
Defined.

(** ** sendMessage *)

(** C3.  With non-empty content and the id of an existing chat,
    sendMessage creates one new message whose sender is the caller,
    answers 201 with that message, populated, and leaves the chat's
    [latestMessage] referring to it. *)
Theorem sendMessage_sets_latestMessage (now : nat) (user : ObjectId)
    (text : string) (chatId : ObjectId) (db : Store) (c : Chat) :
  text <> EmptyString ->
  findChatById chatId (chats db) = Some c ->
  let after := sendMessage now user (Some text) (Some chatId) db in
  exists m,
    messages (fst after) = messages db ++ [m] /\
    ~ In (message_id m) (map message_id (messages db)) /\
    sender m = user /\ content m = text /\ chat m = chatId /\
    snd after = mkResponse 201 (MessageDoc (Some (mkPopulatedMessage m (Some c))))
    /\
    exists c',
      findChatById chatId (chats (fst after)) = Some c' /\
      latestMessage c' = Some (message_id m) /\
      findMessageById (message_id m) (messages (fst after)) = Some m /\
      users c' = users c /\ chatName c' = chatName c /\
      isGroupChat c' = isGroupChat c /\ groupAdmin c' = groupAdmin c.
Proof.
  intros Htext Hfind after. subst after. unfold sendMessage.
  apply String.eqb_neq in Htext. rewrite Htext.
  unfold createMessage. cbv beta iota zeta. cbn [message_id messages chats].
  set (m := mkMessage _ user text chatId now).
  assert (Hm : findMessageById (fresh_id (map message_id (messages db)))
                               (messages db ++ [m]) = Some m).
  { unfold findMessageById, findOne.
    rewrite find_app_second by apply findMessageById_fresh.
    simpl. rewrite Nat.eqb_refl. reflexivity. }
  rewrite Hm. unfold populateMessage. cbn [option_map pm_doc chats].
  change (chat m) with chatId. rewrite Hfind.
  match goal with
  | |- context [findByIdAndUpdate now chatId ?f ?db1] =>
      destruct (findByIdAndUpdate_found now chatId f db1 c Hfind
                  (fun x => eq_refl)) as [_ [Hl Hmsgs]];
      destruct (findByIdAndUpdate now chatId f db1) as [db2 r]
  end.
  cbn [fst snd] in *. exists m.
  split; [exact Hmsgs|].
  split.
  { intros Hin. apply in_map_iff in Hin. destruct Hin as [m' [Heq Hin]].
    pose proof (fresh_id_above _ _ (in_map message_id _ _ Hin)) as Hlt.
    rewrite Heq in Hlt. cbn in Hlt. lia. }
  repeat (split; [reflexivity|]).
  eexists. split; [exact Hl|]. cbn. rewrite Hmsgs. cbn [messages].
  repeat split. exact Hm.
Qed.

(** User 1 writes to the chat with user 2. *)
Lemma sendMessage_sets_latestMessage_witness :
  let db := fst (accessChat 1 1 (Some 2) empty_store) in
  "hi" <> EmptyString /\
  exists m,
    messages (fst (sendMessage 2 1 (Some "hi") (Some 1) db)) = [] ++ [m] /\
    sender m = 1.
Proof.
  intros db. split; [discriminate|].
  destruct (sendMessage_sets_latestMessage 2 1 "hi" 1 db
              (mkChat 1 (Some "sender") false [1; 2] None None 1)
              ltac:(discriminate) eq_refl)
    as [m [Hm [_ [Hs _]]]].
  exists m. split; [exact Hm|exact Hs].
Defined.

(** ** fetchChats *)

Lemma insert_desc_perm (c : Chat) (l : list Chat) :
  Permutation (insert_desc c l) (c :: l).
Proof.
  induction l as [|d l IH]; simpl; [apply Permutation_refl|].
  destruct (updatedAt d <=? updatedAt c); [apply Permutation_refl|].
  apply Permutation_trans with (d :: c :: l).
  - apply perm_skip. exact IH.
  - apply perm_swap.
Qed.

Lemma sort_updatedAt_desc_perm (l : list Chat) :
  Permutation (sort_updatedAt_desc l) l.
Proof.
  induction l as [|c l IH]; simpl; [apply perm_nil|].
  apply Permutation_trans with (c :: sort_updatedAt_desc l).
  - apply insert_desc_perm.
  - apply perm_skip. exact IH.
Qed.

Lemma insert_desc_sorted (c : Chat) (l : list Chat) :
  StronglySorted update_not_older l ->
  StronglySorted update_not_older (insert_desc c l).
Proof.
  induction l as [|d l IH]; intros Hs; simpl.
  - constructor; constructor.
  - inversion Hs as [|? ? Hl Hd]; subst.
    destruct (updatedAt d <=? updatedAt c) eqn:E.
    + apply Nat.leb_le in E. constructor; [exact Hs|].
      constructor; [exact E|].
      rewrite Forall_forall in *. intros x Hx.
      specialize (Hd x Hx). unfold update_not_older in *. lia.
    + apply Nat.leb_gt in E. constructor; [apply IH; exact Hl|].
      rewrite Forall_forall in *. intros x Hx.
      apply (Permutation_in _ (insert_desc_perm c l)) in Hx.
      destruct Hx as [<-|Hx]; [unfold update_not_older; lia|auto].
Qed.

Lemma sort_updatedAt_desc_sorted (l : list Chat) :
  StronglySorted update_not_older (sort_updatedAt_desc l).
Proof.
  induction l as [|c l IH]; simpl; [constructor|].
  apply insert_desc_sorted. exact IH.
Qed.

Lemma response_chats_fetchChats (user : ObjectId) (db : Store) :
  response_chats (snd (fetchChats user db)) = fetched user db.
Proof.
  unfold fetchChats, response_chats. cbn.
  rewrite map_map. cbn. apply map_id.
Qed.

(** C4, as the code has it.  fetchChats answers 200 with exactly the
    chats whose participant list contains the user, each once, ordered by
    the chat's [updatedAt], latest first; it writes nothing. *)
Theorem fetchChats_sorted_by_updatedAt (user : ObjectId) (db : Store) :
  let answer := response_chats (snd (fetchChats user db)) in
  status (snd (fetchChats user db)) = 200 /\
  fst (fetchChats user db) = db /\
  Permutation answer (filter (fun c => mem user (users c)) (chats db)) /\
  (forall c, In c answer <-> In c (chats db) /\ In user (users c)) /\
  StronglySorted update_not_older answer.
Proof.
  intros answer. subst answer. rewrite response_chats_fetchChats.
  unfold fetched.
  split; [reflexivity|]. split; [reflexivity|].
  split; [apply sort_updatedAt_desc_perm|].
  split; [|apply sort_updatedAt_desc_sorted].
  intros c. split.
  - intros Hin.
    apply (Permutation_in _ (sort_updatedAt_desc_perm _)) in Hin.
    apply filter_In in Hin. destruct Hin as [Hc Hu].
    split; [exact Hc|apply mem_In; exact Hu].
  - intros [Hc Hu].
    apply (Permutation_in _ (Permutation_sym (sort_updatedAt_desc_perm _))).
    apply filter_In. split; [exact Hc|apply mem_In; exact Hu].
Qed.

(** C4, as the specification words it, fails: after a rename the renamed group
    comes first although the other chat has the more recent message. *)
Lemma fetchChats_by_message_recency_counterexample :
  map _id (response_chats (snd (fetchChats 1 renamed_after_messages))) = [1; 2]
  /\ map (message_recency renamed_after_messages)
       (response_chats (snd (fetchChats 1 renamed_after_messages)))
     = [Some 3; Some 4]
  /\ ~ Sorted (message_not_older renamed_after_messages)
         (response_chats (snd (fetchChats 1 renamed_after_messages))).
Proof.
  split; [reflexivity|]. split; [reflexivity|].
  intros Hs. rewrite response_chats_fetchChats in Hs.
  vm_compute in Hs.
  inversion Hs as [|? ? _ Hhd]; subst.
  inversion Hhd as [|? ? Hle]; subst.
  vm_compute in Hle. lia.
Qed.

(** ** The invariants of the data model *)

Lemma Forall_updateFirst (P : Chat -> Prop) (id : ObjectId)
    (upd : Chat -> Chat) (l : list Chat) :
  (forall c, P c -> P (upd c)) ->
  Forall P l -> Forall P (fst (updateFirst id upd l)).
Proof.
  intros Hupd. induction 1 as [|c l Hc Hl IH]; simpl; [constructor|].
  destruct (_id c =? id); simpl.
  - constructor; auto.
  - destruct (updateFirst id upd l) as [l' r]. simpl in *.
    constructor; auto.
Qed.

Lemma Forall_findByIdAndUpdate (P : Chat -> Prop) (now : nat) (id : ObjectId)
    (upd : Chat -> Chat) (db : Store) :
  (forall c, P c ->
             P (mkChat (_id (upd c)) (chatName (upd c)) (isGroupChat (upd c))
                       (users (upd c)) (latestMessage (upd c))
                       (groupAdmin (upd c)) now)) ->
  Forall P (chats db) ->
  Forall P (chats (fst (findByIdAndUpdate now id upd db))).
Proof.
  intros Hupd Hall. unfold findByIdAndUpdate.
  match goal with
  | |- context [updateFirst id ?f (chats db)] =>
      pose proof (Forall_updateFirst P id f (chats db) Hupd Hall) as H;
      destruct (updateFirst id f (chats db))
  end.
  exact H.
Qed.

Lemma accessChat_store (now : nat) (user : ObjectId) (userId : option ObjectId)
    (db : Store) :
  fst (accessChat now user userId db) = db \/
  exists uid id,
    userId = Some uid /\
    chats (fst (accessChat now user userId db))
    = chats db ++ [mkChat id (Some "sender") false [user; uid] None None now].
Proof.
  destruct userId as [uid|]; [|left; reflexivity].
  destruct (findOne (direct_between user uid) (chats db)) as [c|] eqn:Hfind.
  - destruct (accessChat_found now user uid db c Hfind) as [c' [_ [_ Heq]]].
    rewrite Heq. left. reflexivity.
  - rewrite (accessChat_created now user uid db Hfind). right.
    exists uid. eexists. split; reflexivity.
Qed.

Lemma createGroupChat_store (now : nat) (user : ObjectId) (req : GroupBody)
    (db : Store) :
  fst (createGroupChat now user req db) = db \/
  status (snd (createGroupChat now user req db)) = 200.
Proof.
  unfold createGroupChat.
  destruct (body_users req) as [| |parsed]; destruct (truthy (body_name req));
    try (left; reflexivity).
  destruct (List.length parsed <? 2); [left; reflexivity|].
  right. reflexivity.
Qed.

(** A property of chats is kept by an operation when the chat the
    operation creates has it and the chat it updates keeps it. *)
Lemma perform_keeps (P : Chat -> Prop) (now : nat) (op : Operation)
    (db : Store) :
  (forall user uid id,
      op = AccessChat user (Some uid) ->
      P (mkChat id (Some "sender") false [user; uid] None None now)) ->
  (forall user req parsed name id,
      op = CreateGroupChat user req ->
      body_users req = UsersArray parsed -> 2 <= List.length parsed ->
      name <> EmptyString ->
      P (mkChat id (Some name) true (parsed ++ [user]) None (Some user) now)) ->
  (forall chatId name c,
      op = RenameGroup chatId name -> P c ->
      P (touch now (set_chatName name c))) ->
  (forall chatId userId c,
      op = AddToGroup chatId userId -> P c ->
      P (touch now (set_users (users c ++ [userId]) c))) ->
  (forall chatId userId c,
      op = RemoveFromGroup chatId userId -> P c ->
      P (touch now (set_users (pull userId (users c)) c))) ->
  Forall P (chats db) -> Forall P (chats (perform now op db)).
Proof.
  intros Hdirect Hgroup Hrename Hadd Hremove Hall.
  destruct op as [user userId|user req|chatId name|chatId userId|chatId userId];
    cbn [perform].
  - destruct (accessChat_store now user userId db) as [->|[uid [id [-> ->]]]];
      [exact Hall|].
    apply Forall_app. split; [exact Hall|]. constructor; [|constructor].
    apply Hdirect. reflexivity.
  - destruct (createGroupChat_store now user req db) as [->|Hok];
      [exact Hall|].
    destruct (createGroupChat_success now user req db Hok)
      as [parsed [name [Hu [Hlen [_ [Hname Heq]]]]]].
    cbv zeta in Heq. rewrite Heq. cbn [fst chats].
    apply Forall_app. split; [exact Hall|]. constructor; [|constructor].
    apply (Hgroup user req); auto.
  - unfold renameGroup.
    pose proof (Forall_findByIdAndUpdate P now chatId (set_chatName name) db)
      as Hkeep.
    destruct (findByIdAndUpdate now chatId _ db). cbn [fst] in *.
    apply Hkeep; [|exact Hall]. intros c Hc.
    apply (Hrename chatId name c eq_refl Hc).
  - unfold addToGroup.
    pose proof (Forall_findByIdAndUpdate P now chatId
                  (fun c => set_users (users c ++ [userId]) c) db) as Hkeep.
    destruct (findByIdAndUpdate now chatId _ db). cbn [fst] in *.
    apply Hkeep; [|exact Hall]. intros c Hc.
    apply (Hadd chatId userId c eq_refl Hc).
  - unfold removeFromGroup.
    pose proof (Forall_findByIdAndUpdate P now chatId
                  (fun c => set_users (pull userId (users c)) c) db) as Hkeep.
    destruct (findByIdAndUpdate now chatId _ db). cbn [fst] in *.
    apply Hkeep; [|exact Hall]. intros c Hc.
    apply (Hremove chatId userId c eq_refl Hc).
Qed.

(** The fields of a chat an operation has just written. *)
Ltac reduce_chat :=
  cbn [touch set_chatName set_users _id chatName isGroupChat users
       latestMessage groupAdmin updatedAt] in *.

Lemma In_participants (u : ObjectId) (c : Chat) :
  In u (participants c) <-> In u (users c).
Proof. unfold participants. apply nodup_In. Qed.

(** C6, as the code has it.  In every state reachable by the five
    operations a direct chat has no admin and a group chat has one.  In
    every state reached without removeFromGroup a group chat has at
    least 3 entries in its array of participants and an admin who is one
    of the participants, and a direct chat has at least 2 entries.  In
    every state reached without a renameGroup to a null or empty name
    every chat has a name.  A direct chat has exactly 2 entries in every
    state reached without addToGroup and removeFromGroup, and the name
    "sender" in every state reached without renameGroup. *)
Theorem invariants_by_operation :
  (forall db, reachable db -> Forall admin_invariant (chats db)) /\
  (forall db, reachable_by removes_nobody db ->
              Forall members_invariant (chats db)) /\
  (forall db, reachable_by takes_no_name db -> Forall has_name (chats db)) /\
  (forall db, reachable_by changes_no_members db ->
              Forall direct_pair (chats db)) /\
  (forall db, reachable_by renames_nothing db ->
              Forall direct_placeholder (chats db)).
Proof.
  split; [|split; [|split; [|split]]].
  - induction 1 as [|now op db _ IH]; [constructor|].
    apply perform_keeps; try exact IH; unfold admin_invariant; intros;
      reduce_chat; try reflexivity; try assumption.
    eexists. reflexivity.
  - induction 1 as [|now op db Hop _ IH]; [constructor|].
    apply perform_keeps; try exact IH; unfold members_invariant.
    + intros. reduce_chat. cbn. lia.
    + intros user req parsed name id _ _ Hlen _. reduce_chat.
      split; [rewrite length_app; cbn; lia|].
      exists user. split; [reflexivity|].
      apply In_participants. reduce_chat. apply in_or_app. right. now left.
    + intros chatId name c _ Hc. reduce_chat. exact Hc.
    + intros chatId userId c _ Hc. reduce_chat.
      destruct (isGroupChat c).
      * destruct Hc as [Hlen [admin [Ha Hin]]].
        split; [rewrite length_app; cbn; lia|].
        exists admin. split; [exact Ha|].
        apply In_participants. reduce_chat. apply in_or_app. left.
        apply In_participants. exact Hin.
      * rewrite length_app. cbn. lia.
    + intros chatId userId c Heq. subst op. discriminate Hop.
  - induction 1 as [|now op db Hop _ IH]; [constructor|].
    apply perform_keeps; try exact IH; unfold has_name.
    + intros. reduce_chat. eexists. split; [reflexivity|discriminate].
    + intros user req parsed name id _ _ _ Hname. reduce_chat.
      exists name. auto.
    + intros chatId name c Heq _. subst op. reduce_chat.
      destruct name as [name|]; [|discriminate].
      exists name. split; [reflexivity|].
      cbn in Hop. apply negb_true_iff, String.eqb_neq in Hop. exact Hop.
    + intros chatId userId c _ Hc. exact Hc.
    + intros chatId userId c _ Hc. exact Hc.
  - induction 1 as [|now op db Hop _ IH]; [constructor|].
    apply perform_keeps; try exact IH; unfold direct_pair.
    + intros. reduce_chat. reflexivity.
    + intros. reduce_chat. discriminate.
    + intros chatId name c _ Hc. reduce_chat. exact Hc.
    + intros chatId userId c Heq. subst op. discriminate Hop.
    + intros chatId userId c Heq. subst op. discriminate Hop.
  - induction 1 as [|now op db Hop _ IH]; [constructor|].
    apply perform_keeps; try exact IH; unfold direct_placeholder.
    + intros. reduce_chat. reflexivity.
    + intros. reduce_chat. discriminate.
    + intros chatId name c Heq. subst op. discriminate Hop.
    + intros chatId userId c _ Hc. reduce_chat. exact Hc.
    + intros chatId userId c _ Hc. reduce_chat. exact Hc.
Qed.

(** A group and a direct chat just created; the group renamed to null;
    the direct chat of three; and the emptied group. *)
Lemma invariants_by_operation_witness :
  Forall direct_pair
    (chats (perform 2 (AccessChat 1 (Some 2))
              (perform 1 (CreateGroupChat 1 (mkGroupBody (UsersArray [2; 3])
                                                         (Some "team")))
                 empty_store))) /\
  Forall direct_placeholder (chats direct_of_three) /\
  Forall members_invariant (chats unnamed_group) /\
  Forall has_name (chats emptied_group) /\
  Forall admin_invariant (chats emptied_group).
Proof.
  split; [|split; [|split; [|split]]].
  - apply (proj1 (proj2 (proj2 (proj2 invariants_by_operation)))).
    apply reached_step; [reflexivity|].
    apply reached_step; [reflexivity|].
    apply reached_empty.
  - apply (proj2 (proj2 (proj2 (proj2 invariants_by_operation)))).
    unfold direct_of_three, named_direct.
    apply reached_step; [reflexivity|].
    apply reached_step; [reflexivity|].
    apply reached_empty.
  - apply (proj1 (proj2 invariants_by_operation)).
    unfold unnamed_group.
    apply reached_step; [reflexivity|].
    apply reached_step; [reflexivity|].
    apply reached_empty.
  - apply (proj1 (proj2 (proj2 invariants_by_operation))).
    unfold emptied_group.
    repeat (apply reached_step; [reflexivity|]).
    apply reached_empty.
  - apply (proj1 invariants_by_operation).
    unfold emptied_group. repeat apply reachable_step. apply reachable_empty.
Defined.

(** C6, as the specification words it, fails, and in each of its parts:
    removeFromGroup checks nothing, so a group can lose its admin and all
    its participants; a direct chat is created with the name "sender" and
    takes a third participant from addToGroup; a group is created from
    an array that names one user only; and renameGroup to null leaves a
    group without a name. *)
Lemma data_model_invariant_counterexample :
  (reachable emptied_group /\
   map participants (chats emptied_group) = [[]] /\
   ~ data_model_invariant emptied_group) /\
  (reachable named_direct /\
   map chatName (chats named_direct) = [Some "sender"] /\
   ~ data_model_invariant named_direct) /\
  (reachable direct_of_three /\
   map participants (chats direct_of_three) = [[1; 2; 3]] /\
   map isGroupChat (chats direct_of_three) = [false]) /\
  (reachable group_of_one /\
   map participants (chats group_of_one) = [[1]] /\
   map isGroupChat (chats group_of_one) = [true]) /\
  (reachable unnamed_group /\
   map chatName (chats unnamed_group) = [None] /\
   map isGroupChat (chats unnamed_group) = [true]).
Proof.
  assert (Hreach : forall now op, reachable (perform now op empty_store))
    by (intros; apply reachable_step, reachable_empty).
  split; [|split; [|split; [|split]]].
  - split.
    { unfold emptied_group. repeat apply reachable_step. apply reachable_empty. }
    split; [reflexivity|].
    intros Hinv. unfold data_model_invariant in Hinv.
    vm_compute in Hinv. apply Forall_inv in Hinv.
    destruct Hinv as [Hlen _]. vm_compute in Hlen. lia.
  - split; [apply Hreach|]. split; [reflexivity|].
    intros Hinv. unfold data_model_invariant in Hinv.
    vm_compute in Hinv. apply Forall_inv in Hinv.
    destruct Hinv as [_ [Hname _]]. discriminate Hname.
  - split; [apply reachable_step, Hreach|]. split; reflexivity.
  - split; [apply Hreach|]. split; reflexivity.
  - split; [apply reachable_step, Hreach|]. split; reflexivity.
Qed.

(** * Further properties of the server *)

(** ** The shape of an update *)

Lemma store_eta (db : Store) : mkStore (chats db) (messages db) = db.
Proof. destruct db. reflexivity. Qed.

Lemma updateFirst_shape (id : ObjectId) (upd : Chat -> Chat) (l : list Chat) :
  (findChatById id l = None /\ updateFirst id upd l = (l, None)) \/
  (exists pre c post,
      l = pre ++ c :: post /\ findChatById id pre = None /\ _id c = id /\
      findChatById id l = Some c /\
      updateFirst id upd l = (pre ++ upd c :: post, Some (upd c))).
Proof.
  unfold findChatById, findOne.
  induction l as [|d l IH]; simpl; [left; auto|].
  destruct (_id d =? id) eqn:E.
  - right. exists [], d, l. apply Nat.eqb_eq in E. simpl. auto.
  - destruct IH as [[Hnone ->]|[pre [c [post [-> [Hpre [Hc [Hfind ->]]]]]]]].
    + left. auto.
    + right. exists (d :: pre), c, post. simpl. rewrite E. auto.
Qed.

Lemma findByIdAndUpdate_shape (now : nat) (id : ObjectId) (upd : Chat -> Chat)
    (db : Store) :
  (findChatById id (chats db) = None /\
   findByIdAndUpdate now id upd db = (db, None)) \/
  (exists pre c post,
      chats db = pre ++ c :: post /\ findChatById id pre = None /\
      _id c = id /\ findChatById id (chats db) = Some c /\
      findByIdAndUpdate now id upd db
      = (mkStore (pre ++ touch now (upd c) :: post) (messages db),
         Some (touch now (upd c)))).
Proof.
  unfold findByIdAndUpdate.
  destruct (updateFirst_shape id (fun c => touch now (upd c)) (chats db))
    as [[Hnone Heq]|[pre [c [post [Hl [Hpre [Hc [Hfind Heq]]]]]]]].
  - left. split; [exact Hnone|].
    unfold touch in Heq. rewrite Heq. rewrite store_eta. reflexivity.
  - right. exists pre, c, post. repeat split; try assumption.
    unfold touch in Heq. rewrite Heq. reflexivity.
Qed.

Lemma findChatById_app_cons (id : ObjectId) (pre post : list Chat)
    (c : Chat) :
  findChatById id pre = None ->
  findChatById id (pre ++ c :: post)
  = if _id c =? id then Some c else findChatById id post.
Proof.
  intros Hpre. unfold findChatById, findOne in *.
  rewrite find_app_second by exact Hpre. reflexivity.
Qed.

(** The answer of an update handler when the chat exists. *)
Lemma update_handler_found (now : nat) (id : ObjectId) (upd : Chat -> Chat)
    (db : Store) (c : Chat) :
  findChatById id (chats db) = Some c ->
  (forall d, _id (upd d) = _id d) ->
  exists pre post,
    chats db = pre ++ c :: post /\ findChatById id pre = None /\
    findByIdAndUpdate now id upd db
    = (mkStore (pre ++ touch now (upd c) :: post) (messages db),
       Some (touch now (upd c))) /\
    findChatById id (pre ++ touch now (upd c) :: post)
    = Some (touch now (upd c)).
Proof.
  intros Hfind Hid.
  destruct (findByIdAndUpdate_shape now id upd db)
    as [[Hnone _]|[pre [c0 [post [Hl [Hpre [Hc [Hfind0 Heq]]]]]]]];
    [congruence|].
  assert (c0 = c) by congruence. subst c0.
  exists pre, post. repeat split; try assumption.
  rewrite findChatById_app_cons by exact Hpre.
  cbn [touch _id]. rewrite Hid, Hc, Nat.eqb_refl. reflexivity.
Qed.

(** ** Every handler is one of five transitions *)

Lemma update_transition (now : nat) (id : ObjectId) (upd : Chat -> Chat)
    (db : Store) :
  (forall d, _id (upd d) = _id d) ->
  (forall d, latestMessage (upd d) = latestMessage d) ->
  transition db (fst (findByIdAndUpdate now id upd db)).
Proof.
  intros Hid Hlatest.
  destruct (findByIdAndUpdate_shape now id upd db)
    as [[_ ->]|[pre [c [post [Hl [Hpre [Hc [_ ->]]]]]]]]; cbn [fst].
  - apply t_stays.
  - apply t_update with c; try assumption.
    + rewrite Hc. exact Hpre.
    + cbn. apply Hid.
    + cbn. apply Hlatest.
Qed.

Lemma perform_transition (now : nat) (op : Operation) (db : Store) :
  transition db (perform now op db).
Proof.
  destruct op as [user userId|user req|chatId name|chatId userId|chatId userId];
    cbn [perform].
  - destruct userId as [uid|]; [|apply t_stays].
    destruct (findOne (direct_between user uid) (chats db)) as [c|] eqn:Hfind.
    + destruct (accessChat_found now user uid db c Hfind) as [c' [_ [_ ->]]].
      apply t_stays.
    + rewrite (accessChat_created now user uid db Hfind). cbn [fst].
      apply t_new_chat; reflexivity.
  - destruct (createGroupChat_store now user req db) as [->|Hok];
      [apply t_stays|].
    destruct (createGroupChat_success now user req db Hok)
      as [parsed [name [_ [_ [_ [_ Heq]]]]]].
    cbv zeta in Heq. rewrite Heq. cbn [fst].
    apply t_new_chat; reflexivity.
  - unfold renameGroup.
    pose proof (update_transition now chatId (set_chatName name) db
                  (fun d => eq_refl) (fun d => eq_refl)) as H.
    destruct (findByIdAndUpdate now chatId _ db). exact H.
  - unfold addToGroup.
    pose proof (update_transition now chatId
                  (fun c => set_users (users c ++ [userId]) c) db
                  (fun d => eq_refl) (fun d => eq_refl)) as H.
    destruct (findByIdAndUpdate now chatId _ db). exact H.
  - unfold removeFromGroup.
    pose proof (update_transition now chatId
                  (fun c => set_users (pull userId (users c)) c) db
                  (fun d => eq_refl) (fun d => eq_refl)) as H.
    destruct (findByIdAndUpdate now chatId _ db). exact H.
Qed.

(** What sendMessage does once the two fields are there. *)
Lemma sendMessage_accepted (now : nat) (user : ObjectId) (text : string)
    (chatId : ObjectId) (db : Store) :
  text <> EmptyString ->
  let m := mkMessage (fresh_id (map message_id (messages db))) user text
                     chatId now in
  (findChatById chatId (chats db) = None /\
   sendMessage now user (Some text) (Some chatId) db
   = (mkStore (chats db) (messages db ++ [m]),
      mkResponse 201 (MessageDoc (Some (mkPopulatedMessage m None))))) \/
  (exists pre c post,
      chats db = pre ++ c :: post /\ findChatById chatId pre = None /\
      _id c = chatId /\ findChatById chatId (chats db) = Some c /\
      sendMessage now user (Some text) (Some chatId) db
      = (mkStore
           (pre ++ touch now (set_latestMessage (Some (message_id m)) c)
                :: post)
           (messages db ++ [m]),
         mkResponse 201 (MessageDoc (Some (mkPopulatedMessage m (Some c)))))).
Proof.
  intros Htext m. unfold sendMessage.
  apply String.eqb_neq in Htext. rewrite Htext.
  unfold createMessage. cbv beta iota zeta. cbn [message_id messages chats].
  fold m.
  assert (Hm : findMessageById (fresh_id (map message_id (messages db)))
                               (messages db ++ [m]) = Some m).
  { unfold findMessageById, findOne.
    rewrite find_app_second by apply findMessageById_fresh.
    simpl. rewrite Nat.eqb_refl. reflexivity. }
  rewrite Hm. unfold populateMessage. cbn [option_map pm_doc chats].
  change (chat m) with chatId.
  match goal with
  | |- context [findByIdAndUpdate now chatId ?f ?db1] =>
      destruct (findByIdAndUpdate_shape now chatId f db1)
        as [[Hnone Heq]|[pre [c [post [Hl [Hpre [Hc [Hfind Heq]]]]]]]];
      rewrite Heq
  end; cbn [chats messages] in *.
  - left. rewrite Hnone. auto.
  - right. exists pre, c, post. rewrite Hfind. repeat split; assumption.
Qed.

Lemma sendMessage_refused (now : nat) (user : ObjectId)
    (content : option string) (chatId : option ObjectId) (db : Store) :
  truthy content = false \/ chatId = None ->
  fst (sendMessage now user content chatId db) = db.
Proof.
  intros Hmissing. unfold sendMessage.
  destruct content as [text|], chatId as [cid|]; try reflexivity.
  destruct Hmissing as [Hfalsy|Hnone]; [|discriminate].
  cbn in Hfalsy. apply negb_false_iff in Hfalsy. rewrite Hfalsy. reflexivity.
Qed.

Lemma serve_transition (now : nat) (r : Request) (db : Store) :
  transition db (serve now r db).
Proof.
  destruct r as [op|user|chatId|user content chatId]; cbn [serve].
  - apply perform_transition.
  - apply t_stays.
  - apply t_stays.
  - destruct (truthy content) eqn:Hcontent.
    2:{ rewrite sendMessage_refused by (left; exact Hcontent). apply t_stays. }
    destruct chatId as [cid|].
    2:{ rewrite sendMessage_refused by (right; reflexivity). apply t_stays. }
    destruct content as [text|]; [|discriminate].
    cbn in Hcontent. apply negb_true_iff, String.eqb_neq in Hcontent.
    destruct (sendMessage_accepted now user text cid db Hcontent)
      as [[Hnone ->]|[pre [c [post [Hl [Hpre [Hc [_ ->]]]]]]]]; cbn [fst].
    + apply t_orphan; [reflexivity|exact Hnone].
    + apply t_message with c; try assumption; try reflexivity.
      * rewrite Hc. exact Hpre.
      * cbn. symmetry. exact Hc.
Qed.

(** ** renameGroup, addToGroup and removeFromGroup *)

Lemma pull_In (x u : ObjectId) (l : list ObjectId) :
  In u (pull x l) <-> In u l /\ u <> x.
Proof.
  unfold pull. rewrite filter_In, negb_true_iff, Nat.eqb_neq. reflexivity.
Qed.

Lemma pull_absent (x : ObjectId) (l : list ObjectId) :
  ~ In x l -> pull x l = l.
Proof.
  unfold pull. induction l as [|u l IH]; simpl; [reflexivity|].
  intros Hnot. destruct (u =? x) eqn:E.
  - apply Nat.eqb_eq in E. exfalso. apply Hnot. now left.
  - simpl. f_equal. apply IH. intros H. apply Hnot. now right.
Qed.

Lemma pull_pull (x : ObjectId) (l : list ObjectId) :
  pull x (pull x l) = pull x l.
Proof.
  apply pull_absent. intros H. apply pull_In in H. destruct H as [_ H].
  now apply H.
Qed.

Lemma pull_pushed (x : ObjectId) (l : list ObjectId) :
  pull x (l ++ [x]) = pull x l.
Proof.
  unfold pull. rewrite filter_app. simpl. rewrite Nat.eqb_refl. simpl.
  apply app_nil_r.
Qed.

Lemma update_handler_missing (now : nat) (id : ObjectId) (upd : Chat -> Chat)
    (db : Store) :
  findChatById id (chats db) = None ->
  findByIdAndUpdate now id upd db = (db, None).
Proof.
  intros Hnone.
  destruct (findByIdAndUpdate_shape now id upd db)
    as [[_ H]|[pre [c [post [_ [_ [_ [Hfind _]]]]]]]];
    [exact H|congruence].
Qed.

(** X1.  renameGroup, addToGroup and removeFromGroup with a chat id that
    matches no chat answer 404 "Chat not found" and leave the database
    as it was. *)
Theorem update_of_missing_chat (now : nat) (chatId : ObjectId) (db : Store) :
  findChatById chatId (chats db) = None ->
  (forall name,
      renameGroup now chatId name db
      = (db, mkResponse 404 (Thrown "Chat not found"))) /\
  (forall userId,
      addToGroup now chatId userId db
      = (db, mkResponse 404 (Thrown "Chat not found"))) /\
  (forall userId,
      removeFromGroup now chatId userId db
      = (db, mkResponse 404 (Thrown "Chat not found"))).
Proof.
  intros Hnone.
  repeat split; intros; unfold renameGroup, addToGroup, removeFromGroup;
    rewrite (update_handler_missing now chatId _ db Hnone); reflexivity.
Qed.

(** A group rename on the empty database. *)
Lemma update_of_missing_chat_witness :
  renameGroup 1 4 (Some "crew") empty_store
  = (empty_store, mkResponse 404 (Thrown "Chat not found")).
Proof.
  apply (update_of_missing_chat 1 4 empty_store). reflexivity.
Defined.

Lemma update_frame (now : nat) (id : ObjectId) (upd : Chat -> Chat)
    (db : Store) :
  (forall d, _id (upd d) = _id d) ->
  map _id (chats (fst (findByIdAndUpdate now id upd db))) = map _id (chats db)
  /\ messages (fst (findByIdAndUpdate now id upd db)) = messages db
  /\ forall other,
      other <> id ->
      findChatById other (chats (fst (findByIdAndUpdate now id upd db)))
      = findChatById other (chats db).
Proof.
  intros Hid.
  destruct (findByIdAndUpdate_shape now id upd db)
    as [[_ ->]|[pre [c [post [Hl [_ [Hc [_ ->]]]]]]]]; cbn [fst chats messages];
    [auto|].
  rewrite Hl. split; [|split; [reflexivity|]].
  - rewrite !map_app. cbn. rewrite Hid. reflexivity.
  - intros other Hother. unfold findChatById, findOne.
    destruct (find (fun d => _id d =? other) pre) as [d|] eqn:Hpre.
    + rewrite !(find_app_first _ _ _ _ Hpre). reflexivity.
    + rewrite !find_app_second by exact Hpre. cbn. rewrite Hid, Hc.
      assert (Hne : (id =? other) = false)
        by (apply Nat.eqb_neq; congruence).
      rewrite Hne. reflexivity.
Qed.

(** X2.  renameGroup, addToGroup and removeFromGroup change at most the
    chat they name: the ids of the chats and their order, the messages,
    and every chat with another id are as before. *)
Theorem update_handlers_touch_one_chat (now : nat) (chatId : ObjectId)
    (db db' : Store) :
  (exists name, db' = fst (renameGroup now chatId name db)) \/
  (exists userId, db' = fst (addToGroup now chatId userId db)) \/
  (exists userId, db' = fst (removeFromGroup now chatId userId db)) ->
  map _id (chats db') = map _id (chats db) /\
  messages db' = messages db /\
  forall other,
    other <> chatId ->
    findChatById other (chats db') = findChatById other (chats db).
Proof.
  intros [[name ->]|[[userId ->]|[userId ->]]];
    unfold renameGroup, addToGroup, removeFromGroup;
    match goal with
    | |- context [findByIdAndUpdate now chatId ?f db] =>
        pose proof (update_frame now chatId f db (fun d => eq_refl)) as H;
        destruct (findByIdAndUpdate now chatId f db)
    end; exact H.
Qed.

(** Adding user 9 to chat 2 leaves chat 1 alone. *)
Lemma update_handlers_touch_one_chat_witness :
  findChatById 1 (chats (fst (addToGroup 6 2 9 renamed_after_messages)))
  = findChatById 1 (chats renamed_after_messages).
Proof.
  apply (update_handlers_touch_one_chat 6 2 renamed_after_messages).
  - right. left. exists 9. reflexivity.
  - discriminate.
Defined.

(** X3.  renameGroup on an existing chat, group or direct, answers with
    the chat under its new name and stores it, whatever the name is (a
    text, the empty text, or null, which leaves the chat without a
    name); members, kind, admin and latest message are kept and
    [updatedAt] is the time of the call.  Of two renames the last one
    wins. *)
Theorem renameGroup_renames (now1 now2 : nat) (chatId : ObjectId)
    (name1 name2 : option string) (db : Store) (c : Chat) :
  findChatById chatId (chats db) = Some c ->
  let renamed name now :=
    mkChat (_id c) name (isGroupChat c) (users c) (latestMessage c)
           (groupAdmin c) now in
  let once := renameGroup now1 chatId name1 db in
  snd once = send (ChatDoc (Some (mkPopulatedChat (renamed name1 now1) None)))
  /\ findChatById chatId (chats (fst once)) = Some (renamed name1 now1)
  /\ findChatById chatId (chats (fst (renameGroup now2 chatId name2 (fst once))))
     = Some (renamed name2 now2).
Proof.
  intros Hfind renamed once. subst once.
  assert (Hstep : forall now name db0 c0,
             findChatById chatId (chats db0) = Some c0 ->
             snd (renameGroup now chatId name db0)
             = send (ChatDoc (Some (mkPopulatedChat
                                      (touch now (set_chatName name c0)) None)))
             /\ findChatById chatId (chats (fst (renameGroup now chatId name db0)))
                = Some (touch now (set_chatName name c0))).
  { intros now name db0 c0 H0. unfold renameGroup.
    destruct (update_handler_found now chatId (set_chatName name) db0 c0 H0
                (fun d => eq_refl)) as [pre [post [_ [_ [-> Hafter]]]]].
    cbn [fst snd chats]. split; [reflexivity|exact Hafter]. }
  destruct (Hstep now1 name1 db c Hfind) as [Hr Hf].
  split; [exact Hr|]. split; [exact Hf|].
  destruct (Hstep now2 name2 _ _ Hf) as [_ Hf2]. exact Hf2.
Qed.

(** The direct chat of users 1 and 2 renamed twice. *)
Lemma renameGroup_renames_witness :
  let db := fst (accessChat 1 1 (Some 2) empty_store) in
  findChatById 1
    (chats (fst (renameGroup 3 1 (Some "b")
                   (fst (renameGroup 2 1 (Some "a") db)))))
  = Some (mkChat 1 (Some "b") false [1; 2] None None 3).
Proof.
  intros db.
  apply (renameGroup_renames 2 3 1 (Some "a") (Some "b") db
           (mkChat 1 (Some "sender") false [1; 2] None None 1)).
  reflexivity.
Defined.

Lemma set_users_found (now : nat) (chatId : ObjectId)
    (f : list ObjectId -> list ObjectId) (db : Store) (c : Chat) :
  findChatById chatId (chats db) = Some c ->
  let c' := mkChat (_id c) (chatName c) (isGroupChat c) (f (users c))
                   (latestMessage c) (groupAdmin c) now in
  findByIdAndUpdate now chatId (fun d => set_users (f (users d)) d) db
  = (fst (findByIdAndUpdate now chatId (fun d => set_users (f (users d)) d) db),
     Some c') /\
  findChatById chatId
    (chats (fst (findByIdAndUpdate now chatId
                   (fun d => set_users (f (users d)) d) db)))
  = Some c'.
Proof.
  intros Hfind c'.
  destruct (update_handler_found now chatId
              (fun d => set_users (f (users d)) d) db c Hfind
              (fun d => eq_refl)) as [pre [post [_ [_ [-> Hafter]]]]].
  cbn [fst chats]. split; [reflexivity|exact Hafter].
Qed.

(** X4.  removeFromGroup on an existing chat succeeds and leaves exactly
    the entries other than [userId], in their order and as often as they
    were there: every occurrence of [userId] is gone, a user who was not
    a participant changes nothing, and a second removal changes nothing
    more. *)
Theorem removeFromGroup_removes (now1 now2 : nat) (chatId userId : ObjectId)
    (db : Store) (c : Chat) :
  findChatById chatId (chats db) = Some c ->
  let once := removeFromGroup now1 chatId userId db in
  let twice := removeFromGroup now2 chatId userId (fst once) in
  exists c1 c2,
    status (snd once) = 200 /\ response_chat (snd once) = Some c1 /\
    findChatById chatId (chats (fst once)) = Some c1 /\
    users c1 = filter (fun u => negb (u =? userId)) (users c) /\
    (forall u, In u (users c1) <-> In u (users c) /\ u <> userId) /\
    (~ In userId (users c) -> users c1 = users c) /\
    findChatById chatId (chats (fst twice)) = Some c2 /\
    users c2 = users c1.
Proof.
  intros Hfind once twice. subst once twice. unfold removeFromGroup.
  destruct (set_users_found now1 chatId (pull userId) db c Hfind)
    as [Heq1 Hf1].
  rewrite Heq1. cbn [fst snd].
  destruct (set_users_found now2 chatId (pull userId) _ _ Hf1)
    as [Heq2 Hf2].
  rewrite Heq2. cbn [fst snd].
  eexists. eexists.
  split; [reflexivity|]. split; [reflexivity|]. split; [exact Hf1|].
  cbn [users]. split; [reflexivity|]. split; [intros u; apply pull_In|].
  split; [apply pull_absent|]. split; [exact Hf2|].
  cbn [users]. apply pull_pull.
Qed.

(** User 2 leaves the direct chat of users 1 and 2. *)
Lemma removeFromGroup_removes_witness :
  let db := fst (accessChat 1 1 (Some 2) empty_store) in
  exists c1,
    findChatById 1 (chats (fst (removeFromGroup 2 1 2 db))) = Some c1 /\
    users c1 = filter (fun u => negb (u =? 2)) [1; 2] /\
    (forall u, In u (users c1) <-> In u [1; 2] /\ u <> 2).
Proof.
  intros db.
  destruct (removeFromGroup_removes 2 3 1 2 db
              (mkChat 1 (Some "sender") false [1; 2] None None 1) eq_refl)
    as [c1 [_ [_ [_ [Hf [He [Hu _]]]]]]].
  exists c1. split; [exact Hf|]. split; [exact He|exact Hu].
Defined.

(** X5.  addToGroup followed by removeFromGroup of the same user leaves
    the participants of before without that user: the original list when
    the user was not a participant, and otherwise the original list
    without the user, who is removed altogether. *)
Theorem add_then_remove (now1 now2 : nat) (chatId userId : ObjectId)
    (db : Store) (c : Chat) :
  findChatById chatId (chats db) = Some c ->
  let added := fst (addToGroup now1 chatId userId db) in
  let removed := fst (removeFromGroup now2 chatId userId added) in
  exists c',
    findChatById chatId (chats removed) = Some c' /\
    users c' = pull userId (users c) /\
    (~ In userId (users c) -> users c' = users c) /\
    ~ In userId (users c').
Proof.
  intros Hfind added removed. subst added removed.
  unfold addToGroup, removeFromGroup.
  destruct (set_users_found now1 chatId (fun us => us ++ [userId]) db c Hfind)
    as [Heq1 Hf1].
  rewrite Heq1. cbn [fst snd].
  destruct (set_users_found now2 chatId (pull userId) _ _ Hf1)
    as [Heq2 Hf2].
  rewrite Heq2. cbn [fst snd].
  eexists. split; [exact Hf2|]. cbn [users]. rewrite pull_pushed.
  split; [reflexivity|]. split; [apply pull_absent|].
  intros H. apply pull_In in H. destruct H as [_ H]. now apply H.
Qed.

(** User 2, a participant already, is added and then removed. *)
Lemma add_then_remove_witness :
  let db := fst (accessChat 1 1 (Some 2) empty_store) in
  exists c',
    findChatById 1
      (chats (fst (removeFromGroup 3 1 2 (fst (addToGroup 2 1 2 db)))))
    = Some c' /\ users c' = pull 2 [1; 2].
Proof.
  intros db.
  destruct (add_then_remove 2 3 1 2 db
              (mkChat 1 (Some "sender") false [1; 2] None None 1) eq_refl)
    as [c' [Hf [Hu _]]].
  exists c'. split; [exact Hf|exact Hu].
Defined.

(** ** What every handler keeps *)

Lemma history_filter (chatId : ObjectId) (db : Store) :
  history chatId db = filter (fun m => chat m =? chatId) (messages db).
Proof.
  unfold history, response_messages, allMessages. cbn.
  rewrite map_map. cbn. apply map_id.
Qed.

Lemma NoDup_snoc_fresh (ids : list ObjectId) :
  NoDup ids -> NoDup (ids ++ [fresh_id ids]).
Proof.
  intros Hnd. apply NoDup_app; [exact Hnd|repeat constructor; intros []|].
  intros a Ha [<-|[]].
  pose proof (fresh_id_above ids _ Ha). lia.
Qed.

Lemma transition_keeps_unique (db db' : Store) :
  transition db db' ->
  NoDup (map _id (chats db)) /\ NoDup (map message_id (messages db)) ->
  NoDup (map _id (chats db')) /\ NoDup (map message_id (messages db')).
Proof.
  intros Ht [Hc Hm].
  destruct Ht as [|c Hid _|pre c c' post Hl _ Hid _|m Hid _
                  |pre c c' post m Hmid Hl _ _ Hid _]; cbn [chats messages].
  - auto.
  - split; [|exact Hm]. rewrite map_app. cbn. rewrite Hid.
    apply NoDup_snoc_fresh. exact Hc.
  - split; [|exact Hm]. rewrite Hl in Hc.
    rewrite map_app in *. cbn in *. rewrite Hid. exact Hc.
  - split; [exact Hc|]. rewrite map_app. cbn. rewrite Hid.
    apply NoDup_snoc_fresh. exact Hm.
  - split.
    + rewrite Hl in Hc. rewrite map_app in *. cbn in *. rewrite Hid. exact Hc.
    + rewrite map_app. cbn. rewrite Hmid. apply NoDup_snoc_fresh. exact Hm.
Qed.

Lemma history_snoc (id : ObjectId) (db : Store) (cs : list Chat) (m : Message) :
  history id (mkStore cs (messages db ++ [m]))
  = history id db ++ (if chat m =? id then [m] else []).
Proof.
  rewrite !history_filter. cbn [messages]. rewrite filter_app. reflexivity.
Qed.

Lemma history_same_messages (id : ObjectId) (db : Store) (cs : list Chat) :
  history id (mkStore cs (messages db)) = history id db.
Proof. rewrite !history_filter. reflexivity. Qed.

Lemma latest_is_last_same (db db' : Store) (c c' : Chat) :
  history (_id c) db' = history (_id c) db ->
  _id c' = _id c -> latestMessage c' = latestMessage c ->
  latest_is_last db c -> latest_is_last db' c'.
Proof.
  unfold latest_is_last. intros Hh Hid Hl. rewrite Hl, Hid, Hh. auto.
Qed.

Lemma transition_keeps_latest (db db' : Store) :
  transition db db' ->
  NoDup (map _id (chats db)) ->
  Forall (latest_is_last db) (chats db) ->
  Forall (latest_is_last db') (chats db').
Proof.
  intros Ht Hnd Hall. rewrite Forall_forall in *.
  destruct Ht as [|c Hid Hnone|pre c c' post Hl _ Hid Hlat|m Hmid Horphan
                  |pre c c' post m Hmid Hl _ Hchat Hid Hlat];
    cbn [chats messages]; intros d Hd.
  - auto.
  - apply in_app_or in Hd. destruct Hd as [Hd|[<-|[]]].
    + apply (latest_is_last_same db _ d d); auto.
      apply history_same_messages.
    + unfold latest_is_last. rewrite Hnone. exact I.
  - assert (Hin : forall x, In x pre \/ In x post -> In x (chats db)).
    { intros x Hx. rewrite Hl. apply in_or_app.
      destruct Hx; [now left|right; now right]. }
    apply in_app_or in Hd. destruct Hd as [Hd|[<-|Hd]].
    + apply (latest_is_last_same db _ d d); auto.
      apply history_same_messages.
    + apply (latest_is_last_same db _ c c'); auto.
      * apply history_same_messages.
      * apply Hall. rewrite Hl. apply in_or_app. right. now left.
    + apply (latest_is_last_same db _ d d); auto.
      apply history_same_messages.
  - apply (latest_is_last_same db _ d d); auto.
    rewrite history_snoc.
    assert (Hne : (chat m =? _id d) = false).
    { apply Nat.eqb_neq. intros Heq.
      apply (findChatById_none_ids _ _ Horphan).
      rewrite Heq. apply in_map. exact Hd. }
    rewrite Hne. apply app_nil_r.
  - rewrite Hl in Hnd. rewrite map_app in Hnd. cbn in Hnd.
    apply NoDup_remove_2 in Hnd.
    assert (Hother : forall x, In x pre \/ In x post ->
                               In x (chats db) /\ (chat m =? _id x) = false).
    { intros x Hx. split.
      - rewrite Hl. apply in_or_app. destruct Hx; [now left|right; now right].
      - apply Nat.eqb_neq. intros Heq. apply Hnd.
        rewrite <- Hchat, Heq. apply in_or_app.
        destruct Hx as [Hx|Hx]; [left|right]; apply in_map; exact Hx. }
    apply in_app_or in Hd. destruct Hd as [Hd|[<-|Hd]].
    + destruct (Hother d (or_introl Hd)) as [Hin Hne].
      apply (latest_is_last_same db _ d d); auto.
      rewrite history_snoc, Hne. apply app_nil_r.
    + unfold latest_is_last. rewrite Hlat, Hid, history_snoc, Hchat.
      rewrite Nat.eqb_refl. eauto.
    + destruct (Hother d (or_intror Hd)) as [Hin Hne].
      apply (latest_is_last_same db _ d d); auto.
      rewrite history_snoc, Hne. apply app_nil_r.
Qed.

(** X6.  No handler deletes or rewrites: after any request the chat ids
    of before are still there, in their order, followed by at most one
    new id, and the messages of before are still there, unchanged and in
    their order, followed by at most one new message. *)
Theorem handlers_only_add (now : nat) (r : Request) (db : Store) :
  exists new_ids new_messages,
    map _id (chats (serve now r db)) = map _id (chats db) ++ new_ids /\
    messages (serve now r db) = messages db ++ new_messages /\
    List.length new_ids <= 1 /\ List.length new_messages <= 1.
Proof.
  destruct (serve_transition now r db)
    as [|c _ _|pre c c' post Hl _ Hid _|m _ _|pre c c' post m _ Hl _ _ Hid _];
    cbn [chats messages].
  - exists [], []. rewrite !app_nil_r. cbn. auto.
  - exists [_id c], []. rewrite map_app, app_nil_r. cbn. auto.
  - exists [], []. rewrite !app_nil_r, Hl, !map_app. cbn. rewrite Hid. auto.
  - exists [], [m]. rewrite app_nil_r. cbn. auto.
  - exists [], [m]. rewrite app_nil_r, Hl, !map_app. cbn. rewrite Hid. auto.
Qed.

(** X7.  In every database the handlers lead to from the empty one, no
    two chats share an id and no two messages share an id. *)
Theorem served_ids_unique (db : Store) :
  served db ->
  NoDup (map _id (chats db)) /\ NoDup (map message_id (messages db)).
Proof.
  induction 1 as [|now r db _ IH].
  - split; constructor.
  - apply (transition_keeps_unique db); [apply serve_transition|exact IH].
Qed.

(** The history of the rename example is a served database. *)
Lemma served_renamed_after_messages : served renamed_after_messages.
Proof.
  unfold renamed_after_messages.
  apply (served_step 5 (ChatOperation (RenameGroup 1 (Some "crew")))).
  apply (served_step 4 (SendMessage 1 (Some "hi") (Some 2))).
  apply (served_step 3 (SendMessage 1 (Some "hello") (Some 1))).
  apply (served_step 2 (ChatOperation (AccessChat 1 (Some 2)))).
  apply (served_step 1 (ChatOperation
                          (CreateGroupChat 1 (mkGroupBody (UsersArray [2; 3])
                                                          (Some "team"))))).
  apply served_empty.
Qed.

(** Two chats and two messages. *)
Lemma served_ids_unique_witness :
  NoDup (map _id (chats renamed_after_messages)) /\
  NoDup (map message_id (messages renamed_after_messages)).
Proof.
  apply (served_ids_unique renamed_after_messages).
  apply served_renamed_after_messages.
Defined.

(** X8.  In every database the handlers lead to from the empty one, the
    [latestMessage] of a chat, when it is set, is the id of the last
    message allMessages answers with for that chat. *)
Theorem served_latestMessage_is_last (db : Store) :
  served db -> Forall (latest_is_last db) (chats db).
Proof.
  intros Hserved.
  assert (H : (NoDup (map _id (chats db)) /\
               NoDup (map message_id (messages db))) /\
              Forall (latest_is_last db) (chats db)).
  { induction Hserved as [|now r db _ [Hnd Hall]].
    - split; [split|]; constructor.
    - pose proof (serve_transition now r db) as Ht. split.
      + apply (transition_keeps_unique db); assumption.
      + apply (transition_keeps_latest db); [assumption|apply Hnd|assumption]. }
  apply H.
Qed.

(** After the rename, each chat still refers to its last message. *)
Lemma served_latestMessage_is_last_witness :
  Forall (latest_is_last renamed_after_messages)
         (chats renamed_after_messages).
Proof.
  apply (served_latestMessage_is_last renamed_after_messages).
  apply served_renamed_after_messages.
Defined.

(** ** sendMessage, allMessages and fetchChats together *)

(** X9.  sendMessage does not check that the chat exists: with non-empty
    content and a chat id that matches no chat, the message is stored all
    the same, the answer is 201 with the message and no chat in it, and
    no chat changes. *)
Theorem sendMessage_to_unknown_chat (now : nat) (user : ObjectId)
    (text : string) (chatId : ObjectId) (db : Store) :
  text <> EmptyString ->
  findChatById chatId (chats db) = None ->
  let m := mkMessage (fresh_id (map message_id (messages db))) user text
                     chatId now in
  sendMessage now user (Some text) (Some chatId) db
  = (mkStore (chats db) (messages db ++ [m]),
     mkResponse 201 (MessageDoc (Some (mkPopulatedMessage m None)))).
Proof.
  intros Htext Hnone m.
  destruct (sendMessage_accepted now user text chatId db Htext)
    as [[_ Heq]|[pre [c [post [_ [_ [_ [Hfind _]]]]]]]];
    [exact Heq|congruence].
Qed.

(** A message to chat 5 of the empty database. *)
Lemma sendMessage_to_unknown_chat_witness :
  sendMessage 2 1 (Some "hi") (Some 5) empty_store
  = (mkStore [] [mkMessage 1 1 "hi" 5 2],
     mkResponse 201
       (MessageDoc (Some (mkPopulatedMessage (mkMessage 1 1 "hi" 5 2) None)))).
Proof.
  apply (sendMessage_to_unknown_chat 2 1 "hi" 5 empty_store);
    [discriminate|reflexivity].
Defined.

(** X10.  After sendMessage with non-empty content, whether or not the
    chat exists, allMessages for that chat id answers with the messages
    of before followed by the new one, which carries the caller as
    sender, the content and the time; the messages of every other chat
    id are as before. *)
Theorem history_after_sendMessage (now : nat) (user : ObjectId)
    (text : string) (chatId : ObjectId) (db : Store) :
  text <> EmptyString ->
  let db' := fst (sendMessage now user (Some text) (Some chatId) db) in
  exists m,
    sender m = user /\ content m = text /\ chat m = chatId /\
    createdAt m = now /\
    history chatId db' = history chatId db ++ [m] /\
    forall other, other <> chatId -> history other db' = history other db.
Proof.
  intros Htext db'. subst db'.
  set (m := mkMessage (fresh_id (map message_id (messages db))) user text
                      chatId now).
  assert (Hstore : exists cs,
             fst (sendMessage now user (Some text) (Some chatId) db)
             = mkStore cs (messages db ++ [m])).
  { destruct (sendMessage_accepted now user text chatId db Htext)
      as [[_ ->]|[pre [c [post [_ [_ [_ [_ ->]]]]]]]]; eexists; reflexivity. }
  destruct Hstore as [cs ->]. exists m.
  repeat (split; [reflexivity|]). split.
  - rewrite history_snoc. cbn [chat m]. rewrite Nat.eqb_refl. reflexivity.
  - intros other Hother. rewrite history_snoc. cbn [chat m].
    assert (Hne : (chatId =? other) = false)
      by (apply Nat.eqb_neq; congruence).
    rewrite Hne. apply app_nil_r.
Qed.

(** A second message to chat 1. *)
Lemma history_after_sendMessage_witness :
  exists m,
    content m = "again" /\
    history 1 (fst (sendMessage 9 2 (Some "again") (Some 1)
                      renamed_after_messages))
    = history 1 renamed_after_messages ++ [m].
Proof.
  destruct (history_after_sendMessage 9 2 "again" 1 renamed_after_messages
              ltac:(discriminate))
    as [m [_ [Hc [_ [_ [Hh _]]]]]].
  exists m. split; [exact Hc|exact Hh].
Defined.

Lemma sorted_head_latest (l : list Chat) (x : Chat) :
  In x l ->
  (forall y, In y l -> y = x \/ updatedAt y < updatedAt x) ->
  exists rest, sort_updatedAt_desc l = x :: rest.
Proof.
  intros Hin Hmax.
  pose proof (sort_updatedAt_desc_perm l) as Hperm.
  pose proof (sort_updatedAt_desc_sorted l) as Hsorted.
  destruct (sort_updatedAt_desc l) as [|h rest].
  - apply Permutation_nil in Hperm. subst l. destruct Hin.
  - exists rest. f_equal.
    assert (Hh : In h l) by (apply (Permutation_in _ Hperm); now left).
    destruct (Hmax h Hh) as [Heq|Hlt]; [exact Heq|].
    apply (Permutation_in _ (Permutation_sym Hperm)) in Hin.
    destruct Hin as [Heq|Hin]; [exact Heq|].
    inversion Hsorted as [|? ? _ Hall]; subst.
    rewrite Forall_forall in Hall. specialize (Hall x Hin).
    unfold update_not_older in Hall. lia.
Qed.

(** X11.  When a message is sent to an existing chat at a time later
    than every chat's [updatedAt], fetchChats lists that chat first for
    each of its participants, with [latestMessage] referring to the new
    message. *)
Theorem sendMessage_moves_chat_first (now : nat) (user reader : ObjectId)
    (text : string) (chatId : ObjectId) (db : Store) (c : Chat) :
  text <> EmptyString ->
  findChatById chatId (chats db) = Some c ->
  In reader (users c) ->
  (forall d, In d (chats db) -> updatedAt d < now) ->
  let db' := fst (sendMessage now user (Some text) (Some chatId) db) in
  exists c' rest,
    response_chats (snd (fetchChats reader db')) = c' :: rest /\
    _id c' = chatId /\ users c' = users c /\ updatedAt c' = now /\
    latestMessage c' = Some (fresh_id (map message_id (messages db))).
Proof.
  intros Htext Hfind Hreader Hclock db'. subst db'.
  destruct (sendMessage_accepted now user text chatId db Htext)
    as [[Hnone _]|[pre [c0 [post [Hl [_ [Hc [Hfind0 ->]]]]]]]];
    [congruence|].
  assert (c0 = c) by congruence. subst c0. cbn [fst].
  rewrite response_chats_fetchChats. unfold fetched. cbn [chats message_id].
  set (c' := touch now (set_latestMessage _ c)).
  destruct (sorted_head_latest
              (filter (fun d => mem reader (users d)) (pre ++ c' :: post)) c')
    as [rest Hrest].
  - apply filter_In. split; [apply in_or_app; right; now left|].
    apply mem_In. exact Hreader.
  - intros y Hy. apply filter_In in Hy. destruct Hy as [Hy _].
    apply in_app_or in Hy. destruct Hy as [Hy|[Hy|Hy]].
    + right. cbn. apply Hclock. rewrite Hl. apply in_or_app. now left.
    + left. symmetry. exact Hy.
    + right. cbn. apply Hclock. rewrite Hl. apply in_or_app. right. now right.
  - exists c', rest. split; [exact Hrest|]. cbn. auto.
Qed.

(** User 2 writes to the direct chat, which then heads both lists. *)
Lemma sendMessage_moves_chat_first_witness :
  exists c' rest,
    response_chats
      (snd (fetchChats 1 (fst (sendMessage 9 2 (Some "back") (Some 2)
                                 renamed_after_messages))))
    = c' :: rest /\ _id c' = 2.
Proof.
  destruct (sendMessage_moves_chat_first 9 2 1 "back" 2 renamed_after_messages
              (mkChat 2 (Some "sender") false [1; 2] (Some 2) None 4))
    as [c' [rest [H1 [H2 _]]]].
  - discriminate.
  - reflexivity.
  - cbn. auto.
  - intros d [<-|[<-|[]]]; cbn; lia.
  - exists c', rest. auto.
Defined.

(** ** accessChat and createGroupChat *)

Lemma In_fetched (user : ObjectId) (db : Store) (c : Chat) :
  In c (chats db) -> In user (users c) ->
  In c (response_chats (snd (fetchChats user db))).
Proof.
  intros Hin Huser. rewrite response_chats_fetchChats. unfold fetched.
  apply (Permutation_in _ (Permutation_sym (sort_updatedAt_desc_perm _))).
  apply filter_In. split; [exact Hin|apply mem_In; exact Huser].
Qed.

(** X12.  In a database whose chat ids are distinct, the chat accessChat
    answers with is a non-group chat with both users among its
    participants, and fetchChats lists it afterwards for the caller and
    for the other user. *)
Theorem accessChat_lists_chat_for_both (now : nat) (A B : ObjectId)
    (db : Store) :
  NoDup (map _id (chats db)) ->
  let db' := fst (accessChat now A (Some B) db) in
  exists c,
    response_chat (snd (accessChat now A (Some B) db)) = Some c /\
    isGroupChat c = false /\ In A (users c) /\ In B (users c) /\
    In c (response_chats (snd (fetchChats A db'))) /\
    In c (response_chats (snd (fetchChats B db'))).
Proof.
  intros Hnd db'. subst db'.
  destruct (findOne (direct_between A B) (chats db)) as [c|] eqn:Hfind.
  - destruct (accessChat_found now A B db c Hfind) as [c' [Hid [_ ->]]].
    apply find_some in Hfind. destruct Hfind as [Hin Hq].
    rewrite (findChatById_unique _ _ Hnd Hin) in Hid.
    injection Hid as <-. cbn [fst snd].
    unfold direct_between in Hq.
    apply andb_true_iff in Hq. destruct Hq as [Hq HB].
    apply andb_true_iff in Hq. destruct Hq as [Hg HA].
    apply negb_true_iff in Hg. apply mem_In in HA, HB.
    exists c. split; [reflexivity|].
    repeat split; try assumption; apply In_fetched; assumption.
  - rewrite (accessChat_created now A B db Hfind). cbn [fst snd].
    eexists. split; [reflexivity|]. cbn [isGroupChat users].
    split; [reflexivity|]. split; [now left|]. split; [right; now left|].
    split; apply In_fetched; cbn; auto using in_or_app, in_eq.
Qed.

(** User 3 opens a chat with user 1 after the rename example. *)
Lemma accessChat_lists_chat_for_both_witness :
  exists c,
    response_chat (snd (accessChat 7 3 (Some 1) renamed_after_messages))
    = Some c /\
    In c (response_chats
            (snd (fetchChats 1 (fst (accessChat 7 3 (Some 1)
                                       renamed_after_messages))))).
Proof.
  destruct (accessChat_lists_chat_for_both 7 3 1 renamed_after_messages)
    as [c [Hr [_ [_ [_ [_ H1]]]]]].
  - cbn. repeat constructor; cbn; intuition discriminate.
  - exists c. split; [exact Hr|exact H1].
Defined.

(** X13.  createGroupChat succeeds exactly when the [users] field parses
    to an array of at least 2 ids and the name is not empty.  The chat
    it then creates and answers with has the parsed users, in their
    order, followed by the creator, who is its admin; a creator who is
    also in the array is listed once more. *)
Theorem createGroupChat_members (now : nat) (user : ObjectId)
    (req : GroupBody) (db : Store) :
  (status (snd (createGroupChat now user req db)) = 200 <->
   exists parsed,
     body_users req = UsersArray parsed /\ 2 <= List.length parsed /\
     truthy (body_name req) = true) /\
  (status (snd (createGroupChat now user req db)) = 200 ->
   exists parsed c,
     body_users req = UsersArray parsed /\
     response_chat (snd (createGroupChat now user req db)) = Some c /\
     findChatById (_id c) (chats db) = None /\
     findChatById (_id c) (chats (fst (createGroupChat now user req db)))
     = Some c /\
     users c = parsed ++ [user] /\ groupAdmin c = Some user /\
     chatName c = body_name req /\ latestMessage c = None /\
     count_occ Nat.eq_dec (users c) user
     = S (count_occ Nat.eq_dec parsed user)).
Proof.
  split; [split|].
  - intros Hok.
    destruct (createGroupChat_success now user req db Hok)
      as [parsed [name [Hu [Hlen [Hn [Hne _]]]]]].
    exists parsed. repeat split; try assumption.
    rewrite Hn. cbn. apply negb_true_iff, String.eqb_neq. exact Hne.
  - intros [parsed [Hu [Hlen Hn]]]. unfold createGroupChat.
    rewrite Hu, Hn. apply Nat.ltb_ge in Hlen. rewrite Hlen. reflexivity.
  - intros Hok.
    destruct (createGroupChat_success now user req db Hok)
      as [parsed [name [Hu [_ [Hn [_ Heq]]]]]].
    cbv zeta in Heq. rewrite Heq. cbn [fst snd chats].
    exists parsed. eexists. split; [exact Hu|]. split; [reflexivity|].
    cbn [pc_doc _id users groupAdmin chatName latestMessage].
    split; [apply findChatById_fresh|].
    split.
    { unfold findChatById, findOne.
      rewrite find_app_second by apply findChatById_fresh.
      cbn. rewrite Nat.eqb_refl. reflexivity. }
    split; [reflexivity|]. split; [reflexivity|].
    split; [symmetry; exact Hn|]. split; [reflexivity|].
    rewrite count_occ_app. cbn.
    destruct (Nat.eq_dec user user); [apply Nat.add_1_r|congruence].
Qed.

(** User 1 creates a group and names themself among its users. *)
Lemma createGroupChat_members_witness :
  exists parsed c,
    body_users (mkGroupBody (UsersArray [1; 2]) (Some "team"))
    = UsersArray parsed /\
    response_chat
      (snd (createGroupChat 4 1 (mkGroupBody (UsersArray [1; 2]) (Some "team"))
              empty_store)) = Some c /\
    users c = parsed ++ [1].
Proof.
  destruct (proj2 (createGroupChat_members 4 1
                     (mkGroupBody (UsersArray [1; 2]) (Some "team"))
                     empty_store) eq_refl)
    as [parsed [c [Hu [Hr [_ [_ [Hm _]]]]]]].
  exists parsed, c. auto.
Defined.

(** * Properties of the client *)

Import SingleChat.

(** ** sendMessage *)

Lemma trim_nonempty (s : jsstring) : trim s <> [] -> s <> [].
Proof. intros Ht Hs. subst s. apply Ht. reflexivity. Qed.

Lemma wants_to_send_spec (key : string) (c : Component) :
  wants_to_send key c = true <-> key = "Enter" /\ trim (newMessage c) <> [].
Proof.
  unfold wants_to_send. rewrite andb_true_iff, String.eqb_eq.
  destruct (trim (newMessage c)); cbn; split; intros [Hk Ht];
    split; try assumption; try discriminate; try reflexivity.
  exfalso. apply Ht. reflexivity.
Qed.

(** C10.  The keydown handler posts only when the key is Enter and the
    input is non-empty after trimming, and then it posts the input, which
    is not empty; on every other event it does nothing at all: the
    component, so its message list and its input, is unchanged. *)
Theorem sendMessage_posts_only_nonempty (key : string)
    (respond : jsstring -> option ObjectId -> option MessageObject)
    (c : Component) :
  (forall content chatId,
      In (Post content chatId) (snd (sendMessage key respond c)) ->
      key = "Enter" /\ trim (newMessage c) <> [] /\
      content = newMessage c /\ content <> []) /\
  (key = "Enter" -> trim (newMessage c) <> [] ->
   In (Post (newMessage c) (selectedChat c)) (snd (sendMessage key respond c)))
  /\
  (~ (key = "Enter" /\ trim (newMessage c) <> []) ->
   sendMessage key respond c = (c, [])).
Proof.
  unfold sendMessage, sendMessage_request.
  destruct (wants_to_send key c) eqn:Hw.
  - apply wants_to_send_spec in Hw. destruct Hw as [Hk Ht].
    split; [|split].
    + intros content chatId Hin.
      assert (Hpost : content = newMessage c).
      { destruct (respond (newMessage c) (selectedChat c)); cbn in Hin;
          destruct Hin as [H|[H|[H|[]]]]; try discriminate; congruence. }
      subst content. repeat split; try assumption.
      apply trim_nonempty. exact Ht.
    + intros _ _.
      destruct (respond (newMessage c) (selectedChat c)); cbn; auto.
    + intros Hno. exfalso. apply Hno. split; assumption.
  - split; [|split].
    + intros content chatId [].
    + intros Hk Ht.
      assert (Hyes : wants_to_send key c = true)
        by (apply wants_to_send_spec; split; assumption).
      congruence.
    + reflexivity.
Qed.

(** A key other than Enter. *)
Lemma sendMessage_posts_only_nonempty_witness :
  sendMessage "a" (fun _ _ => None) one_notification = (one_notification, []).
Proof.
  apply (sendMessage_posts_only_nonempty "a" (fun _ _ => None)
           one_notification).
  intros [Hk _]. discriminate Hk.
Defined.

(** ** messageHandler *)

Lemma for_open_chat_spec (m : MessageObject) (c : Component) :
  for_open_chat m c = true <-> selectedChatCompare c = Some (chat (payload m)).
Proof.
  unfold for_open_chat. destruct (selectedChatCompare c) as [open|].
  - rewrite Nat.eqb_eq. split; congruence.
  - split; discriminate.
Qed.




(** ** typingHandler *)

Lemma armed_referenced (c : Component) (t : nat) (room : option ObjectId) :
  armed c t room -> referenced c.
Proof.
  intros [_ [_ [_ [id [Href Htimers]]]]] x Hx.
  rewrite Htimers in Hx. destruct Hx as [<-|[]]. exact Href.
Qed.

Lemma referenced_cleared (c : Component) :
  referenced c ->
  match typingTimeoutRef c with
  | Some id => clearTimeout id (timers c)
  | None => timers c
  end = [].
Proof.
  unfold referenced. intros Href.
  destruct (typingTimeoutRef c) as [id|].
  - unfold clearTimeout.
    induction (timers c) as [|x q IH]; [reflexivity|]. simpl.
    assert (Hid : timer_id x = id).
    { specialize (Href x (or_introl eq_refl)). congruence. }
    rewrite Hid, Nat.eqb_refl. simpl. apply IH.
    intros y Hy. apply Href. now right.
  - destruct (timers c) as [|x q]; [reflexivity|].
    specialize (Href x (or_introl eq_refl)). discriminate.
Qed.

Lemma typingHandler_arms (now : nat) (value : jsstring) (c : Component) :
  socketConnected c = true -> referenced c ->
  armed (fst (typingHandler now value c)) now (selectedChat c) /\
  snd (typingHandler now value c)
  = (if typing c then [] else [Emit "typing" (selectedChat c)]).
Proof.
  intros Hconn Href. unfold typingHandler. rewrite Hconn. cbn [negb fst snd].
  rewrite (referenced_cleared c Href). split.
  - unfold armed. cbn. repeat split; try assumption.
    exists (next_timer c). split; reflexivity.
  - destruct (typing c); reflexivity.
Qed.

Lemma advance_idle (upto : nat) (c : Component) :
  timers c = [] -> advance upto c = (c, []).
Proof.
  destruct c. cbn. intros ->. reflexivity.
Qed.

Lemma advance_early (upto t : nat) (room : option ObjectId) (c : Component) :
  armed c t room -> upto < t + typing_delay -> advance upto c = (c, []).
Proof.
  intros [_ [_ [_ [id [_ Htimers]]]]] Hlt.
  apply Nat.leb_gt in Hlt.
  destruct c. cbn [timers] in Htimers. subst.
  unfold advance. cbn [timers split_due deadline]. rewrite Hlt. reflexivity.
Qed.

Lemma advance_fires (upto t : nat) (room : option ObjectId) (c : Component) :
  armed c t room -> t + typing_delay <= upto ->
  snd (advance upto c) = [(t + typing_delay, Emit "stop typing" room)] /\
  typing (fst (advance upto c)) = false /\
  timers (fst (advance upto c)) = [].
Proof.
  intros [_ [_ [_ [id [_ Htimers]]]]] Hle.
  apply Nat.leb_le in Hle.
  unfold advance. rewrite Htimers. cbn [split_due deadline]. rewrite Hle.
  cbn. auto.
Qed.

Lemma run_burst (rest : list (nat * jsstring)) :
  forall (c : Component) (t : nat) (room : option ObjectId),
    armed c t room -> burst t rest ->
    snd (run (changes rest) c) = [] /\
    armed (fst (run (changes rest) c)) (last_keystroke t rest) room.
Proof.
  induction rest as [|[t' v'] more IH]; intros c t room Harmed Hburst.
  - cbn. auto.
  - cbn in Hburst. destruct Hburst as [_ [Hlt Hmore]].
    cbn [changes map run fst snd last_keystroke handle].
    rewrite (advance_early t' t room c Harmed Hlt).
    destruct (typingHandler_arms t' v' c) as [Harmed' Heff].
    { apply Harmed. }
    { apply (armed_referenced c t room Harmed). }
    destruct Harmed as [_ [Htyping [Hroom _]]].
    rewrite Htyping in Heff. rewrite Hroom in Harmed'.
    destruct (typingHandler t' v' c) as [c2 effects]. cbn [fst snd] in *.
    subst effects.
    specialize (IH c2 t' room Harmed' Hmore).
    fold (changes more).
    destruct (run (changes more) c2) as [c3 later]. cbn [fst snd] in *.
    destruct IH as [-> Hend]. auto.
Qed.

Lemma unmount_clears (c : Component) :
  referenced c -> timers (unmount c) = [].
Proof.
  intros Href. pose proof (referenced_cleared c Href) as Hclear.
  unfold unmount. destruct (typingTimeoutRef c); exact Hclear.
Qed.

Lemma split_due_later (upto : nat) (q : list Timer) (x : Timer) :
  In x (snd (split_due upto q)) -> In x q.
Proof.
  induction q as [|y q IH]; simpl; [auto|].
  destruct (deadline y <=? upto); [|auto].
  destruct (split_due upto q) as [due later]. simpl in *. auto.
Qed.

Lemma referenced_advance (upto : nat) (c : Component) :
  referenced c -> referenced (fst (advance upto c)).
Proof.
  intros Href x Hx. unfold advance in *.
  pose proof (split_due_later upto (timers c) x) as Hin.
  destruct (split_due upto (timers c)) as [due later].
  cbn in *. auto.
Qed.

Lemma referenced_handle (now : nat) (e : Event) (c : Component) :
  referenced c -> referenced (fst (handle now e c)).
Proof.
  intros Href. destruct e as [value|]; cbn [handle fst].
  - destruct (socketConnected c) eqn:Hconn.
    + destruct (typingHandler_arms now value c Hconn Href) as [Harmed _].
      exact (armed_referenced _ _ _ Harmed).
    + unfold typingHandler. rewrite Hconn. exact Href.
  - intros x Hx. rewrite (unmount_clears c Href) in Hx. destruct Hx.
Qed.

(** From mount on, every pending timer is the one [typingTimeoutRef]
    refers to. *)
Lemma referenced_run (timeline : list (nat * Event)) :
  forall c, referenced c -> referenced (fst (run timeline c)).
Proof.
  induction timeline as [|[t e] rest IH]; intros c Href; [exact Href|].
  cbn [run].
  pose proof (referenced_advance t c Href) as H1.
  destruct (advance t c) as [c1 fired]. cbn [fst] in H1.
  pose proof (referenced_handle t e c1 H1) as H2.
  destruct (handle t e c1) as [c2 effects]. cbn [fst] in H2.
  specialize (IH c2 H2).
  destruct (run rest c2) as [c3 later]. exact IH.
Qed.

Lemma referenced_mount (selected : option ObjectId) (fetch : bool) :
  referenced (mount selected fetch) /\
  referenced (on_connected (mount selected fetch)).
Proof. split; intros x []. Qed.

(** C2, as the code has it.  While the socket is connected, a burst of
    keystrokes that starts with the typing flag off and no timer pending,
    followed by inactivity until 3000 ms after its last keystroke or
    later, emits exactly two signals: "typing" at the first keystroke and
    "stop typing" 3000 ms after the last one.  Every keystroke on a
    connected socket leaves exactly one pending timer, its own.  Unmount
    clears the pending timer, so nothing is emitted afterwards.  While
    the socket is not connected a keystroke only updates the input. *)
Theorem typing_debounce :
  (forall c t v rest upto,
      socketConnected c = true -> typing c = false -> timers c = [] ->
      burst t rest -> last_keystroke t rest + typing_delay <= upto ->
      let after := run_then_idle (changes ((t, v) :: rest)) upto c in
      snd after
      = [(t, Emit "typing" (selectedChat c));
         (last_keystroke t rest + typing_delay,
          Emit "stop typing" (selectedChat c))] /\
      emitted "typing" (snd after) = 1 /\
      emitted "stop typing" (snd after) = 1 /\
      typing (fst after) = false /\ timers (fst after) = []) /\
  (forall c now v,
      socketConnected c = true -> referenced c ->
      exists id,
        typingTimeoutRef (fst (typingHandler now v c)) = Some id /\
        timers (fst (typingHandler now v c))
        = [mkTimer id (now + typing_delay) (selectedChat c)]) /\
  (forall c upto,
      referenced c ->
      timers (unmount c) = [] /\ snd (advance upto (unmount c)) = []) /\
  (forall c now v,
      socketConnected c = false ->
      snd (typingHandler now v c) = [] /\
      timers (fst (typingHandler now v c)) = timers c /\
      typing (fst (typingHandler now v c)) = typing c /\
      newMessage (fst (typingHandler now v c)) = v).
Proof.
  split; [|split; [|split]].
  - intros c t v rest upto Hconn Htyping Htimers Hburst Hidle after.
    subst after. unfold run_then_idle.
    cbn [changes map run fst snd handle].
    rewrite (advance_idle t c Htimers).
    destruct (typingHandler_arms t v c Hconn) as [Harmed Heff].
    { intros x Hx. rewrite Htimers in Hx. destruct Hx. }
    rewrite Htyping in Heff.
    destruct (typingHandler t v c) as [c2 effects]. cbn [fst snd] in *.
    subst effects.
    destruct (run_burst rest c2 t (selectedChat c) Harmed Hburst)
      as [Hquiet Hend].
    fold (changes rest).
    destruct (run (changes rest) c2) as [c3 later]. cbn [fst snd] in *.
    subst later.
    destruct (advance_fires upto _ _ c3 Hend Hidle) as [Hfire [Hoff Hnone]].
    destruct (advance upto c3) as [c4 fired]. cbn [fst snd] in *.
    subst fired. cbn. auto.
  - intros c now v Hconn Href.
    destruct (typingHandler_arms now v c Hconn Href)
      as [[_ [_ [_ [id [Hid Htimers]]]]] _].
    exists id. auto.
  - intros c upto Href.
    pose proof (unmount_clears c Href) as Hclear.
    split; [exact Hclear|].
    rewrite (advance_idle upto (unmount c) Hclear). reflexivity.
  - intros c now v Hconn. unfold typingHandler. rewrite Hconn. cbn. auto.
Qed.

(** Two keystrokes one second apart, then three seconds of silence. *)
Lemma typing_debounce_witness :
  snd (run_then_idle (changes [(0, [104%N]); (1000, [104%N; 105%N])]) 4000
         (on_connected (mount (Some 7) false)))
  = [(0, Emit "typing" (Some 7)); (4000, Emit "stop typing" (Some 7))].
Proof.
  apply (proj1 typing_debounce (on_connected (mount (Some 7) false)) 0
           [104%N] [(1000, [104%N; 105%N])] 4000).
  - reflexivity.
  - reflexivity.
  - reflexivity.
  - cbn. unfold typing_delay. lia.
  - cbn. unfold typing_delay. lia.
Defined.

(** C2, as the specification words it, fails.  Before the socket is connected a
    keystroke followed by inactivity emits nothing; and keystrokes that
    are 3000 ms or more apart each emit "typing" and "stop typing". *)
Lemma typing_every_sequence_counterexample :
  emitted "typing"
    (snd (run_then_idle (changes [(0, [104%N])]) 3000 (mount (Some 7) false)))
  = 0 /\
  emitted "stop typing"
    (snd (run_then_idle (changes [(0, [104%N])]) 3000 (mount (Some 7) false)))
  = 0 /\
  snd (run_then_idle (changes [(0, [104%N]); (4000, [104%N; 105%N])])
         (4000 + 3000)
         (on_connected (mount (Some 7) false)))
  = [(0, Emit "typing" (Some 7)); (3000, Emit "stop typing" (Some 7));
     (4000, Emit "typing" (Some 7)); (4000 + 3000, Emit "stop typing" (Some 7))].
Proof.
  repeat split; vm_compute; reflexivity.
Qed.

(** * Further properties of the client *)

(** ** What sendMessage posts *)

Lemma trimStart_nil (s : jsstring) : trimStart s = [] <-> blank s = true.
Proof.
  unfold blank. induction s as [|u s IH]; simpl; [tauto|].
  destruct (is_whitespace u); simpl; [exact IH|].
  split; discriminate.
Qed.

Lemma blank_trimStart (s : jsstring) : blank (trimStart s) = blank s.
Proof.
  unfold blank. induction s as [|u s IH]; simpl; [reflexivity|].
  destruct (is_whitespace u) eqn:E; simpl; [exact IH|].
  rewrite E. reflexivity.
Qed.

Lemma blank_rev (s : jsstring) : blank (rev s) = true <-> blank s = true.
Proof.
  unfold blank. rewrite !forallb_forall.
  split; intros H u Hu; apply H; [apply in_rev in Hu|apply in_rev]; exact Hu.
Qed.

Lemma trim_nil (s : jsstring) : trim s = [] <-> blank s = true.
Proof.
  unfold trim. rewrite <- blank_trimStart, <- blank_rev, <- trimStart_nil.
  split; intros H.
  - apply (f_equal (@rev N)) in H. rewrite rev_involutive in H. exact H.
  - rewrite H. reflexivity.
Qed.

(** X14.  The keydown handler posts a message exactly when the key is
    Enter and the input holds a code unit that is not whitespace; an
    input of whitespace only is never posted, whatever the key. *)
Theorem sendMessage_posts_iff_not_blank (key : string)
    (respond : jsstring -> option ObjectId -> option MessageObject)
    (c : Component) :
  ((exists content chatId,
       In (Post content chatId) (snd (sendMessage key respond c))) <->
   key = "Enter" /\ exists u, In u (newMessage c) /\ is_whitespace u = false)
  /\
  (blank (newMessage c) = true -> sendMessage key respond c = (c, [])).
Proof.
  assert (Hvisible :
            (exists u, In u (newMessage c) /\ is_whitespace u = false) <->
            trim (newMessage c) <> []).
  { rewrite trim_nil. unfold blank. split.
    - intros [u [Hin Hu]] Hall. rewrite forallb_forall in Hall.
      rewrite (Hall u Hin) in Hu. discriminate.
    - intros Hnot. destruct (forallb is_whitespace (newMessage c)) eqn:E;
        [congruence|].
      clear Hnot. induction (newMessage c) as [|u s IH]; [discriminate|].
      simpl in E. destruct (is_whitespace u) eqn:Hu.
      + destruct (IH E) as [v [Hin Hv]]. exists v. split; [now right|exact Hv].
      + exists u. split; [now left|exact Hu]. }
  rewrite Hvisible. unfold sendMessage, sendMessage_request.
  destruct (wants_to_send key c) eqn:Hw.
  - apply wants_to_send_spec in Hw. split.
    + split; [intros _; exact Hw|]. intros _.
      exists (newMessage c), (selectedChat c).
      destruct (respond (newMessage c) (selectedChat c)); cbn; auto.
    + intros Hblank. apply trim_nil in Hblank. destruct Hw as [_ Hw].
      contradiction.
  - split; [|reflexivity]. split.
    + intros [content [chatId []]].
    + intros Hyes. apply wants_to_send_spec in Hyes. congruence.
Qed.

(** Enter on an input of a space and a tab. *)
Lemma sendMessage_posts_iff_not_blank_witness :
  let c := mkComponent [] [32%N; 9%N] true false false None (Some 7) [] false
             (Some 7) [] 1 in
  sendMessage "Enter" (fun _ _ => None) c = (c, []).
Proof.
  intros c.
  apply (sendMessage_posts_iff_not_blank "Enter" (fun _ _ => None) c).
  reflexivity.
Defined.


(** ** The notification list *)

Lemma includes_In (l : list MessageObject) (m : MessageObject) :
  includes l m = false -> ~ In (address m) (map address l).
Proof.
  unfold includes. intros Hfalse Hin.
  apply in_map_iff in Hin. destruct Hin as [x [Hx Hin]].
  assert (Htrue : existsb (fun y => address y =? address m) l = true).
  { apply existsb_exists. exists x. split; [exact Hin|].
    apply Nat.eqb_eq. exact Hx. }
  congruence.
Qed.

(** X16.  messageHandler keeps the notification list free of repeated
    objects, and for a message that is not of the open chat a second
    delivery of the same object changes nothing; a message of the open
    chat is appended at every delivery. *)
Theorem notifications_hold_each_object_once (m : MessageObject)
    (c : Component) :
  (NoDup (map address (notification c)) ->
   NoDup (map address (notification (messageHandler m c)))) /\
  (for_open_chat m c = false ->
   messageHandler m (messageHandler m c) = messageHandler m c) /\
  (for_open_chat m c = true ->
   messages (messageHandler m (messageHandler m c)) = messages c ++ [m; m]).
Proof.
  unfold messageHandler.
  destruct (for_open_chat m c) eqn:Hopen; cbn [negb].
  - split; [auto|]. split; [discriminate|]. intros _.
    unfold for_open_chat in *. cbn. rewrite Hopen. cbn.
    rewrite <- app_assoc. reflexivity.
  - destruct (includes (notification c) m) eqn:Hinc; cbn [negb].
    + split; [auto|]. split; [|discriminate]. intros _.
      rewrite Hopen, Hinc. reflexivity.
    + split; [|split; [|discriminate]].
      * intros Hnd. cbn. constructor; [apply includes_In; exact Hinc|exact Hnd].
      * intros _. unfold for_open_chat in *. cbn. rewrite Hopen. cbn.
        unfold includes. cbn. rewrite Nat.eqb_refl. reflexivity.
Qed.

(** The same object delivered twice while no chat is open. *)
Lemma notifications_hold_each_object_once_witness :
  messageHandler later_message (messageHandler later_message one_notification)
  = messageHandler later_message one_notification.
Proof.
  apply (notifications_hold_each_object_once later_message one_notification).
  reflexivity.
Defined.

(** ** The typing timer *)

Lemma split_due_length (upto : nat) (q : list Timer) :
  List.length (snd (split_due upto q)) <= List.length q.
Proof.
  induction q as [|x q IH]; simpl; [lia|].
  destruct (deadline x <=? upto); [|simpl; lia].
  destruct (split_due upto q) as [due later]. simpl in *. lia.
Qed.

Lemma advance_timers_length (upto : nat) (c : Component) :
  List.length (timers (fst (advance upto c))) <= List.length (timers c).
Proof.
  unfold advance. pose proof (split_due_length upto (timers c)) as H.
  destruct (split_due upto (timers c)) as [due later]. exact H.
Qed.

Lemma handle_timers_length (now : nat) (e : Event) (c : Component) :
  referenced c -> List.length (timers c) <= 1 ->
  List.length (timers (fst (handle now e c))) <= 1.
Proof.
  intros Href Hlen. destruct e as [value|]; cbn [handle fst].
  - destruct (socketConnected c) eqn:Hconn.
    + destruct (typingHandler_arms now value c Hconn Href)
        as [[_ [_ [_ [id [_ ->]]]]] _]. cbn. lia.
    + unfold typingHandler. rewrite Hconn. exact Hlen.
  - rewrite (unmount_clears c Href). cbn. lia.
Qed.

(** X17.  Whatever the keystrokes and whenever the component unmounts,
    starting with at most one pending timer that [typingTimeoutRef]
    refers to (as after mount, with none), there is never more than one
    typing timer pending, and it is the one [typingTimeoutRef] refers
    to. *)
Theorem one_pending_timer (timeline : list (nat * Event)) :
  forall c,
    referenced c -> List.length (timers c) <= 1 ->
    referenced (fst (run timeline c)) /\
    List.length (timers (fst (run timeline c))) <= 1.
Proof.
  induction timeline as [|[t e] rest IH]; intros c Href Hlen; [auto|].
  cbn [run].
  pose proof (referenced_advance t c Href) as Href1.
  pose proof (advance_timers_length t c) as Hlen1.
  destruct (advance t c) as [c1 fired]. cbn [fst] in *.
  pose proof (referenced_handle t e c1 Href1) as Href2.
  pose proof (handle_timers_length t e c1 Href1 ltac:(lia)) as Hlen2.
  destruct (handle t e c1) as [c2 effects]. cbn [fst] in *.
  specialize (IH c2 Href2 Hlen2).
  destruct (run rest c2) as [c3 later]. exact IH.
Qed.

(** Three keystrokes on a connected component. *)
Lemma one_pending_timer_witness :
  List.length
    (timers (fst (run (changes [(0, [104%N]); (10, [104%N]); (3500, [])])
                    (on_connected (mount (Some 7) false))))) <= 1.
Proof.
  apply (one_pending_timer
           (changes [(0, [104%N]); (10, [104%N]); (3500, [])])
           (on_connected (mount (Some 7) false))).
  - intros x [].
  - cbn. lia.
Defined.

Lemma emitted_app (signal : string) (a b : list (nat * Effect)) :
  emitted signal (a ++ b) = emitted signal a + emitted signal b.
Proof. unfold emitted. rewrite filter_app, length_app. reflexivity. Qed.

Lemma debouncing_referenced (c : Component) (bound : nat) :
  debouncing c bound -> referenced c.
Proof.
  intros [_ [[_ Hnone]|[t [room [Harmed _]]]]].
  - intros x Hx. rewrite Hnone in Hx. destruct Hx.
  - exact (armed_referenced c t room Harmed).
Qed.

Lemma advance_connected (upto : nat) (c : Component) :
  socketConnected (fst (advance upto c)) = socketConnected c.
Proof.
  unfold advance. destruct (split_due upto (timers c)). reflexivity.
Qed.

Lemma debouncing_advance (upto : nat) (c : Component) (bound : nat) :
  debouncing c bound ->
  debouncing (fst (advance upto c)) bound /\
  emitted "typing" (snd (advance upto c)) = 0 /\
  emitted "stop typing" (snd (advance upto c))
  + typing_now (fst (advance upto c)) = typing_now c.
Proof.
  intros Hd. pose proof Hd as [Hconn [[Hoff Hnone]|[t [room [Harmed Hb]]]]].
  - rewrite (advance_idle upto c Hnone). cbn. auto.
  - destruct (Nat.lt_ge_cases upto (t + typing_delay)) as [Hlt|Hge].
    + rewrite (advance_early upto t room c Harmed Hlt). cbn. auto.
    + destruct (advance_fires upto t room c Harmed Hge) as [Hf [Ht Hn]].
      rewrite Hf. split.
      * split; [rewrite advance_connected; exact Hconn|]. left. auto.
      * unfold typing_now. rewrite Ht.
        destruct Harmed as [_ [-> _]]. split; reflexivity.
Qed.

Lemma debouncing_keystroke (t : nat) (v : jsstring) (c : Component)
    (bound : nat) :
  debouncing c bound -> t + typing_delay <= bound ->
  debouncing (fst (typingHandler t v c)) bound /\
  emitted "typing" (map (pair t) (snd (typingHandler t v c))) + typing_now c
  = typing_now (fst (typingHandler t v c)) /\
  emitted "stop typing" (map (pair t) (snd (typingHandler t v c))) = 0.
Proof.
  intros Hd Hb. pose proof (debouncing_referenced c bound Hd) as Href.
  destruct Hd as [Hconn _].
  destruct (typingHandler_arms t v c Hconn Href) as [Harmed ->].
  split.
  - split; [apply Harmed|]. right. exists t, (selectedChat c). auto.
  - unfold typing_now. destruct Harmed as [_ [-> _]].
    destruct (typing c); split; reflexivity.
Qed.

Lemma run_balance (keys : list (nat * jsstring)) (bound : nat) :
  forall c,
    debouncing c bound ->
    (forall k, In k keys -> fst k + typing_delay <= bound) ->
    debouncing (fst (run (changes keys) c)) bound /\
    emitted "typing" (snd (run (changes keys) c)) + typing_now c
    = emitted "stop typing" (snd (run (changes keys) c))
      + typing_now (fst (run (changes keys) c)).
Proof.
  induction keys as [|[t v] keys IH]; intros c Hd Hkeys; [cbn; auto|].
  cbn [changes map run fst snd handle]. fold (changes keys).
  destruct (debouncing_advance t c bound Hd) as [Hd1 [Ht1 Hs1]].
  destruct (advance t c) as [c1 fired]. cbn [fst snd] in *.
  destruct (debouncing_keystroke t v c1 bound Hd1) as [Hd2 [Ht2 Hs2]].
  { apply (Hkeys (t, v)). now left. }
  destruct (typingHandler t v c1) as [c2 effects]. cbn [fst snd] in *.
  destruct (IH c2 Hd2) as [Hd3 Hbal].
  { intros k Hk. apply Hkeys. now right. }
  destruct (run (changes keys) c2) as [c3 later]. cbn [fst snd] in *.
  split; [exact Hd3|]. rewrite !emitted_app. lia.
Qed.

(** X18.  For any keystrokes at any times on a connected component that
    starts idle, the "typing" signals emitted so far are as many as the
    "stop typing" signals, plus one while the typing flag is on; and once
    3000 ms have passed since every keystroke the two counts are equal,
    the flag is off and no timer is pending. *)
Theorem typing_signals_balance (keys : list (nat * jsstring))
    (c : Component) :
  socketConnected c = true -> typing c = false -> timers c = [] ->
  emitted "typing" (snd (run (changes keys) c))
  = emitted "stop typing" (snd (run (changes keys) c))
    + typing_now (fst (run (changes keys) c)) /\
  forall upto,
    (forall k, In k keys -> fst k + typing_delay <= upto) ->
    emitted "typing" (snd (run_then_idle (changes keys) upto c))
    = emitted "stop typing" (snd (run_then_idle (changes keys) upto c)) /\
    typing (fst (run_then_idle (changes keys) upto c)) = false /\
    timers (fst (run_then_idle (changes keys) upto c)) = [].
Proof.
  intros Hconn Hoff Hnone.
  assert (Hstart : forall bound, debouncing c bound)
    by (intros bound; split; [exact Hconn|left; auto]).
  assert (Hzero : typing_now c = 0) by (unfold typing_now; now rewrite Hoff).
  split.
  - destruct (run_balance keys (list_max (map fst keys) + typing_delay) c
                (Hstart _)) as [_ Hbal].
    { intros k Hk.
      assert (H : Forall (fun x => x <= list_max (map fst keys)) (map fst keys))
        by (apply list_max_le; lia).
      rewrite Forall_forall in H. specialize (H (fst k) (in_map fst _ _ Hk)).
      lia. }
    lia.
  - intros upto Hkeys. unfold run_then_idle.
    destruct (run_balance keys upto c (Hstart _) Hkeys) as [Hd Hbal].
    destruct (run (changes keys) c) as [c1 during]. cbn [fst snd] in *.
    rewrite Hzero in Hbal.
    destruct Hd as [_ [[Hoff1 Hnone1]|[t [room [Harmed Hb]]]]].
    + rewrite (advance_idle upto c1 Hnone1). cbn [fst snd].
      rewrite app_nil_r. unfold typing_now in Hbal. rewrite Hoff1 in Hbal.
      repeat split; try assumption; lia.
    + destruct (advance_fires upto t room c1 Harmed Hb) as [Hf [Ht Hn]].
      destruct (advance upto c1) as [c2 fired]. cbn [fst snd] in *.
      subst fired. rewrite !emitted_app.
      unfold typing_now in Hbal. destruct Harmed as [_ [Hon _]].
      rewrite Hon in Hbal.
      change (emitted "typing" [(t + typing_delay, Emit "stop typing" room)])
        with 0.
      change (emitted "stop typing"
                [(t + typing_delay, Emit "stop typing" room)]) with 1.
      repeat split; try assumption; lia.
Qed.

(** Keystrokes in two bursts, then silence. *)
Lemma typing_signals_balance_witness :
  emitted "typing"
    (snd (run_then_idle (changes [(0, [104%N]); (100, []); (4000, [105%N])])
            (4000 + 3000) (on_connected (mount (Some 7) false))))
  = emitted "stop typing"
      (snd (run_then_idle (changes [(0, [104%N]); (100, []); (4000, [105%N])])
              (4000 + 3000) (on_connected (mount (Some 7) false)))).
Proof.
  apply (proj2 (typing_signals_balance
                  [(0, [104%N]); (100, []); (4000, [105%N])]
                  (on_connected (mount (Some 7) false))
                  eq_refl eq_refl eq_refl) (4000 + 3000)).
  intros k [<-|[<-|[<-|[]]]]; cbn; unfold typing_delay; lia.
Defined.

(** X19.  Sending does not cancel the typing timer.  When a keystroke
    at [t] on a connected, idle component is followed by a successful
    send, the send emits "stop typing" and the timer still emits it again
    at [t] + 3000; and a keystroke between the send and that time emits
    no "typing", although the peers were told that typing stopped. *)
Theorem send_leaves_typing_timer (t t' upto : nat) (v v' : jsstring)
    (respond : jsstring -> option ObjectId -> option MessageObject)
    (data : MessageObject) (c : Component) :
  socketConnected c = true -> typing c = false -> timers c = [] ->
  blank v = false -> respond v (selectedChat c) = Some data ->
  t + typing_delay <= upto ->
  let typed := typingHandler t v c in
  let sent := sendMessage "Enter" respond (fst typed) in
  snd typed = [Emit "typing" (selectedChat c)] /\
  snd sent = [Emit "stop typing" (selectedChat c);
              Post v (selectedChat c); EmitMessage data] /\
  snd (advance upto (fst sent))
  = [(t + typing_delay, Emit "stop typing" (selectedChat c))] /\
  snd (typingHandler t' v' (fst sent)) = [].
Proof.
  intros Hconn Hoff Hnone Hv Hr Hupto typed sent. subst typed sent.
  assert (Href : referenced c)
    by (intros x Hx; rewrite Hnone in Hx; destruct Hx).
  destruct (typingHandler_arms t v c Hconn Href) as [Harmed Heff].
  rewrite Hoff in Heff.
  assert (Hinput : newMessage (fst (typingHandler t v c)) = v)
    by (unfold typingHandler; rewrite Hconn; reflexivity).
  destruct (typingHandler t v c) as [c1 effects]. cbn [fst snd] in *.
  split; [exact Heff|].
  assert (Hw : wants_to_send "Enter" c1 = true).
  { apply wants_to_send_spec. split; [reflexivity|].
    rewrite Hinput, trim_nil. congruence. }
  assert (Hroom : selectedChat c1 = selectedChat c) by apply Harmed.
  unfold sendMessage, sendMessage_request. rewrite Hw, Hinput, Hroom, Hr.
  cbn [sendMessage_fulfilled fst snd app].
  split; [reflexivity|].
  set (c2 := mkComponent _ _ _ _ _ _ _ _ _ _ _ _).
  assert (Harmed2 : armed c2 t (selectedChat c)).
  { destruct Harmed as [H1 [H2 [H3 H4]]]. unfold armed, c2. cbn. auto. }
  split.
  - apply (advance_fires upto t (selectedChat c) c2 Harmed2 Hupto).
  - destruct (typingHandler_arms t' v' c2) as [_ Heff2].
    + apply Harmed2.
    + exact (armed_referenced _ _ _ Harmed2).
    + rewrite Heff2. destruct Harmed2 as [_ [-> _]]. reflexivity.
Qed.

(** The letter h typed at 0 and sent, the timer running out at 3000. *)
Lemma send_leaves_typing_timer_witness :
  let c := on_connected (mount (Some 7) false) in
  snd (advance 3000
         (fst (sendMessage "Enter" (fun _ _ => Some later_message)
                 (fst (typingHandler 0 [104%N] c)))))
  = [(0 + typing_delay, Emit "stop typing" (Some 7))].
Proof.
  intros c.
  apply (send_leaves_typing_timer 0 1 3000 [104%N] [105%N]
           (fun _ _ => Some later_message) later_message c);
    reflexivity.
Defined.

(** ** fetchMessages and the selection *)

(** X22.  fetchMessages does nothing while no chat is selected.  With a
    chat selected it requests the messages of that chat only; when the
    request succeeds the visible messages are replaced by the answer, the
    loading flag is off and the chat's room is joined; when it fails the
    visible messages are kept, no room is joined and the loading flag
    stays on. *)
Theorem fetchMessages_outcomes
    (respond : ObjectId -> option (list MessageObject)) (v : View) :
  let after := fetchMessages respond v in
  (selectedChat (component v) = None -> after = (v, [])) /\
  (forall id, In (Get id) (snd after) -> selectedChat (component v) = Some id)
  /\
  (forall id data,
      selectedChat (component v) = Some id -> respond id = Some data ->
      messages (component (fst after)) = data /\
      notification (component (fst after)) = notification (component v) /\
      loading (fst after) = false /\
      snd after = [Get id; Other (Emit "join chat" (Some id))]) /\
  (forall id,
      selectedChat (component v) = Some id -> respond id = None ->
      component (fst after) = component v /\
      loading (fst after) = true /\
      forall room, ~ In (Other (Emit "join chat" room)) (snd after)).
Proof.
  intros after. subst after. unfold fetchMessages.
  destruct (selectedChat (component v)) as [id|] eqn:Hsel.
  - destruct (respond id) as [data|] eqn:Hr; cbn.
    + split; [discriminate|].
      split; [intros x [H|[H|[]]]; congruence|].
      split; [intros x d Hx Hd; injection Hx as <-; assert (d = data)
                by congruence; subst d; auto|].
      intros x Hx Hd. injection Hx as <-. congruence.
    + split; [discriminate|].
      split; [intros x [H|[H|[]]]; congruence|].
      split; [intros x d Hx Hd; injection Hx as <-; congruence|].
      intros x _ _. repeat split.
      intros room [H|[H|[]]]; discriminate.
  - cbn. split; [reflexivity|].
    split; [intros x []|]. split; intros; discriminate.
Qed.

(** A failed request for the messages of chat 7. *)
Lemma fetchMessages_outcomes_witness :
  loading (fst (fetchMessages (fun _ => None)
                  (mkView (mount (Some 7) false) false))) = true.
Proof.
  apply (proj2 (proj2 (proj2 (fetchMessages_outcomes (fun _ => None)
                                (mkView (mount (Some 7) false) false)))) 7);
    reflexivity.
Defined.

Lemma select_component
    (chat : option ObjectId)
    (respond : ObjectId -> option (list MessageObject)) (v : View) :
  let c' := component (fst (select chat respond v)) in
  selectedChatCompare c' = chat /\ selectedChat c' = chat /\
  notification c' = notification (component v).
Proof.
  unfold select, fetchMessages. cbn [component selectedChat].
  destruct chat as [id|]; [destruct (respond id)|]; cbn; auto.
Qed.

(** X23.  After a chat is selected, whether or not its messages could
    be fetched, a message of that chat is appended to the visible
    messages and raises no notification, and a message of any other chat
    is not shown and, unless the object is there already, becomes the
    first notification.  After the selection is cleared every message is
    treated as one of another chat. *)
Theorem selection_routes_messages (selected : option ObjectId)
    (respond : ObjectId -> option (list MessageObject)) (v : View)
    (m : MessageObject) :
  let c' := component (fst (select selected respond v)) in
  (selected = Some (chat (payload m)) ->
   messages (messageHandler m c') = messages c' ++ [m] /\
   notification (messageHandler m c') = notification (component v)) /\
  (selected <> Some (chat (payload m)) ->
   messages (messageHandler m c') = messages c' /\
   (includes (notification (component v)) m = false ->
    notification (messageHandler m c') = m :: notification (component v)))
  /\
  (selected = None ->
   messages (messageHandler m c') = messages (component v)).
Proof.
  intros c'.
  destruct (select_component selected respond v) as [Hcmp [Hsel Hnot]].
  fold c' in Hcmp, Hsel, Hnot.
  assert (Hopen : for_open_chat m c' = true <->
                  selected = Some (chat (payload m))).
  { rewrite for_open_chat_spec, Hcmp. reflexivity. }
  split; [|split].
  - intros Hchat. apply Hopen in Hchat. unfold messageHandler.
    rewrite Hchat. cbn. auto.
  - intros Hchat.
    assert (Hclosed : for_open_chat m c' = false).
    { destruct (for_open_chat m c') eqn:E; [|reflexivity].
      exfalso. apply Hchat, Hopen. reflexivity. }
    unfold messageHandler. rewrite Hclosed. cbn [negb]. rewrite Hnot.
    destruct (includes (notification (component v)) m); cbn;
      split; try reflexivity; discriminate.
  - intros Hnone.
    assert (Hclosed : for_open_chat m c' = false).
    { unfold for_open_chat. rewrite Hcmp, Hnone. reflexivity. }
    unfold messageHandler. rewrite Hclosed. cbn [negb].
    assert (Hmsgs : messages c' = messages (component v)).
    { unfold c', select, fetchMessages. cbn [component selectedChat].
      rewrite Hnone. reflexivity. }
    destruct (includes (notification c') m); cbn; exact Hmsgs.
Qed.

(** Chat 7 is opened and a message of chat 7 arrives. *)
Lemma selection_routes_messages_witness :
  let v := mkView one_notification false in
  messages (messageHandler later_message
              (component (fst (select (Some 7) (fun _ => Some []) v))))
  = [later_message].
Proof.
  intros v.
  apply (selection_routes_messages (Some 7) (fun _ => Some []) v later_message).
  reflexivity.
Defined.

(** ** What a delivery keeps *)

(** X24.  The handler of the render at which a message arrives is
    [messageHandler]: it keeps every visible message and every
    notification, and leaves the incoming message shown or notified.  A
    handler of any render keeps the visible messages.  But it keeps the
    notifications of its own render only: when two messages of other
    chats arrive through the same handler, the list becomes the second
    message in front of the list of that render, the notification of the
    first is lost, and the re-fetch flag is toggled once. *)
Theorem messageHandler_of_render (rendered : Component)
    (m1 m2 : MessageObject) (c : Component) :
  messageHandler_of c m1 c = messageHandler m1 c /\
  ((exists more, messages (messageHandler m1 c) = messages c ++ more) /\
   (exists more,
       notification (messageHandler m1 c) = more ++ notification c) /\
   (In m1 (messages (messageHandler m1 c)) \/
    includes (notification (messageHandler m1 c)) m1 = true)) /\
  (exists more,
      messages (messageHandler_of rendered m1 c) = messages c ++ more) /\
  (for_open_chat m1 rendered = false -> for_open_chat m2 rendered = false ->
   includes (notification rendered) m1 = false ->
   includes (notification rendered) m2 = false ->
   let twice :=
     messageHandler_of rendered m2 (messageHandler_of rendered m1 rendered) in
   notification twice = m2 :: notification rendered /\
   fetchAgain twice = negb (fetchAgain rendered) /\
   (address m1 <> address m2 -> includes (notification twice) m1 = false)).
Proof.
  split; [reflexivity|]. split; [|split].
  - unfold messageHandler.
    destruct (for_open_chat m1 c); cbn [negb].
    + cbn. split; [exists [m1]; reflexivity|].
      split; [exists []; reflexivity|].
      left. apply in_or_app. right. now left.
    + destruct (includes (notification c) m1) eqn:Hinc; cbn [negb].
      * split; [exists []; symmetry; apply app_nil_r|].
        split; [exists []; reflexivity|]. right. exact Hinc.
      * cbn. split; [exists []; symmetry; apply app_nil_r|].
        split; [exists [m1]; reflexivity|]. right.
        unfold includes. cbn. rewrite Nat.eqb_refl. reflexivity.
  - unfold messageHandler_of.
    destruct (for_open_chat m1 c); cbn [negb].
    + exists [m1]. reflexivity.
    + destruct (includes (notification rendered) m1); cbn;
        exists []; symmetry; apply app_nil_r.
  - intros Hopen1 Hopen2 Hinc1 Hinc2 twice. subst twice.
    assert (Hfirst :
              messageHandler_of rendered m1 rendered
              = mkComponent (messages rendered) (newMessage rendered)
                  (socketConnected rendered) (typing rendered)
                  (istyping rendered) (typingTimeoutRef rendered)
                  (selectedChat rendered) (m1 :: notification rendered)
                  (negb (fetchAgain rendered))
                  (selectedChatCompare rendered) (timers rendered)
                  (next_timer rendered))
      by (unfold messageHandler_of; rewrite Hopen1, Hinc1; reflexivity).
    rewrite Hfirst. unfold messageHandler_of.
    unfold for_open_chat in *. cbn [selectedChatCompare].
    rewrite Hopen2, Hinc2. cbn.
    split; [reflexivity|]. split; [reflexivity|].
    intros Hne. unfold includes in *. cbn. rewrite Hinc1.
    assert (Hdiff : (address m2 =? address m1) = false)
      by (apply Nat.eqb_neq; congruence).
    rewrite Hdiff. reflexivity.
Qed.

(** Two messages reach the handler of the render that had one
    notification. *)
Lemma messageHandler_of_render_witness :
  let third := mkMessageObject 3 (mkMessage 3 2 "third" 7 30) in
  notification
    (messageHandler_of one_notification third
       (messageHandler_of one_notification later_message one_notification))
  = [third; earlier_message].
Proof.
  intros third.
  apply (proj2 (proj2 (proj2 (messageHandler_of_render one_notification
                                later_message third one_notification))));
    reflexivity.
Defined.

(** * Properties of the login form *)

(** X20.  submitHandler posts the credentials exactly when neither the
    email nor the password is empty, and then it posts those two; when
    one is empty it only shows the warning.  Whatever happens, the
    loading flag is off at the end and the form's fields are kept. *)
Theorem submitHandler_validates (respond : string -> string -> Login.Answer)
    (s : Login.State) :
  let after := Login.submitHandler respond s in
  (forall e p,
      In (Login.PostLogin e p) (snd after) <->
      Login.email s <> EmptyString /\ Login.password s <> EmptyString /\
      e = Login.email s /\ p = Login.password s) /\
  (Login.email s = EmptyString \/ Login.password s = EmptyString ->
   snd after = [Login.Toast "Please Fill all the Fields" "warning" None] /\
   Login.user (fst after) = Login.user s /\
   Login.userInfo (fst after) = Login.userInfo s) /\
  Login.loading (fst after) = false /\
  Login.email (fst after) = Login.email s /\
  Login.password (fst after) = Login.password s /\
  Login.show (fst after) = Login.show s.
Proof.
  intros after. subst after. unfold Login.submitHandler.
  destruct (String.eqb (Login.email s) EmptyString) eqn:He;
    [|destruct (String.eqb (Login.password s) EmptyString) eqn:Hp];
    cbn [orb].
  - apply String.eqb_eq in He. cbn. split; [|auto].
    intros e p. split; [intros [H|[]]; discriminate|]. intros [H _].
    contradiction.
  - apply String.eqb_eq in Hp. cbn. split; [|auto].
    intros e p. split; [intros [H|[]]; discriminate|]. intros [_ [H _]].
    contradiction.
  - apply String.eqb_neq in He, Hp.
    destruct (respond (Login.email s) (Login.password s)); cbn.
    + split; [|split; [|auto]].
      * intros e p. split.
        -- intros [H|[H|[H|[]]]]; try discriminate.
           injection H as <- <-. auto.
        -- intros [_ [_ [-> ->]]]. now left.
      * intros [H|H]; contradiction.
    + split; [|split; [|auto]].
      * intros e p. split.
        -- intros [H|[H|[]]]; try discriminate.
           injection H as <- <-. auto.
        -- intros [_ [_ [-> ->]]]. now left.
      * intros [H|H]; contradiction.
Qed.

(** A submit without a password. *)
Lemma submitHandler_validates_witness :
  snd (Login.submitHandler (fun _ _ => Login.Fulfilled "{}")
         (Login.mkState false "guest@example.com" EmptyString false None None))
  = [Login.Toast "Please Fill all the Fields" "warning" None].
Proof.
  apply (submitHandler_validates (fun _ _ => Login.Fulfilled "{}")
           (Login.mkState false "guest@example.com" EmptyString false None
              None)).
  right. reflexivity.
Defined.

(** X21.  submitHandler logs in exactly when both fields are filled and
    the server accepts them: then the user of the context and the
    "userInfo" entry of localStorage hold the answer and the page moves
    to "/chats".  Otherwise the user and localStorage are as before and
    the page stays; a rejected login shows an error toast whose
    description is never empty. *)
Theorem submitHandler_logs_in_on_success
    (respond : string -> string -> Login.Answer) (s : Login.State) :
  let after := Login.submitHandler respond s in
  (In (Login.Push "/chats") (snd after) <->
   Login.email s <> EmptyString /\ Login.password s <> EmptyString /\
   exists data,
     respond (Login.email s) (Login.password s) = Login.Fulfilled data) /\
  (forall data,
      Login.email s <> EmptyString -> Login.password s <> EmptyString ->
      respond (Login.email s) (Login.password s) = Login.Fulfilled data ->
      Login.user (fst after) = Some data /\
      Login.userInfo (fst after) = Some data) /\
  (~ In (Login.Push "/chats") (snd after) ->
   Login.user (fst after) = Login.user s /\
   Login.userInfo (fst after) = Login.userInfo s) /\
  (forall title status description,
      In (Login.Toast title status (Some description)) (snd after) ->
      status = "error" /\ description <> EmptyString).
Proof.
  intros after. subst after. unfold Login.submitHandler.
  destruct (String.eqb (Login.email s) EmptyString) eqn:He;
    [|destruct (String.eqb (Login.password s) EmptyString) eqn:Hp];
    cbn [orb].
  - apply String.eqb_eq in He. cbn.
    split; [split; [intros [H|[]]; discriminate
                   |intros [H _]; contradiction]|].
    split; [intros data H; contradiction|].
    split; [auto|].
    intros title status description [H|[]]. discriminate.
  - apply String.eqb_eq in Hp. cbn.
    split; [split; [intros [H|[]]; discriminate
                   |intros [_ [H _]]; contradiction]|].
    split; [intros data _ H; contradiction|].
    split; [auto|].
    intros title status description [H|[]]. discriminate.
  - apply String.eqb_neq in He, Hp.
    destruct (respond (Login.email s) (Login.password s)) as [data|message];
      cbn.
    + split; [split; [intros _; eauto|auto]|].
      split; [intros d _ _ H; injection H as <-; auto|].
      split; [intros H; exfalso; apply H; auto|].
      intros title status description [H|[H|[H|[]]]]; discriminate.
    + split.
      { split; [intros [H|[H|[]]]; discriminate|].
        intros [_ [_ [d H]]]. discriminate. }
      split; [intros d _ _ H; discriminate|].
      split; [auto|].
      intros title status description [H|[H|[]]]; [discriminate|].
      injection H as _ <- <-. split; [reflexivity|].
      unfold Login.error_description. destruct message as [text|].
      * destruct (String.eqb text EmptyString) eqn:E;
          [discriminate|apply String.eqb_neq; exact E].
      * discriminate.
Qed.

(** The guest credentials, accepted. *)
Lemma submitHandler_logs_in_on_success_witness :
  let s := Login.guestCredentials
             (Login.mkState false EmptyString EmptyString false None None) in
  Login.user (fst (Login.submitHandler (fun _ _ => Login.Fulfilled "{}") s))
  = Some "{}".
Proof.
  intros s.
  apply (proj1 (proj2 (submitHandler_logs_in_on_success
                         (fun _ _ => Login.Fulfilled "{}") s)) "{}");
    [discriminate|discriminate|reflexivity].
Defined.
